(** * WitnessChain location-proof plugin: stamp pipeline, verifier and evaluator

    A shallow embedding of the TypeScript sources

      - [collect.ts]   ([signalsFromChallengeResult]),
      - [create.ts]    ([createWitnessChainStamp]),
      - [index.ts]     ([WitnessChainPlugin.sign]),
      - [verify.ts]    ([verifyWitnessChainStamp]),
      - [evaluate.ts]  ([temporalOverlap], [evaluateWitnessChainStamp]),

    followed by the properties established about them.

    Number model.  JavaScript numbers are embedded as exact rationals
    ([Q]); equality of numbers is [Qeq].  IEEE-754 rounding, [NaN] and the
    infinities are outside the model.  Two operations of the sources can
    leave the rationals on inputs of the model: the division by the
    effective radius in the evaluator, and every property below that
    depends on the value of that quotient assumes a radius other than 0;
    and the reading of a date from a string, and every property below
    that depends on the instant read assumes that the string is a date. *)

From Stdlib Require Import QArith Qminmax Qround Lqa ZArith Lia.
From Stdlib Require Import String Ascii List.
From stdpp Require Import base option list gmap strings pretty.

Local Open Scope string_scope.
Set Warnings "-register-all".

(** ** JavaScript values and builtins *)

(** Values of type [unknown]: what [Record<string, unknown>] objects hold. *)
Inductive jsval : Type :=
| VUndefined
| VNull
| VBool (b : bool)
| VNum (q : Q)
| VStr (s : string)
| VObj (fields : list (string * jsval)).

(** [typeof v === 'boolean'] *)
Definition is_boolean (v : jsval) : bool :=
  match v with VBool _ => true | _ => false end.

(** [v === true] *)
Definition is_true (v : jsval) : bool :=
  match v with VBool true => true | _ => false end.

(** [v !== undefined] *)
Definition is_defined (v : jsval) : bool :=
  match v with VUndefined => false | _ => true end.

(** [obj[key]] on a [Record<string, unknown>]: a missing key reads as
    [undefined]. *)
Definition prop (obj : gmap string jsval) (key : string) : jsval :=
  default VUndefined (obj !! key).

(** Thrown exceptions carry their message ([e.message] / [String(e)]). *)
Inductive Exc (A : Type) : Type :=
| Ok (a : A)
| Throw (msg : string).
Arguments Ok {A} a.
Arguments Throw {A} msg.

(** [String.prototype.toLowerCase] on the ASCII range (identities are
    hex-encoded addresses). *)
Definition lower_ascii (c : ascii) : ascii :=
  let n := nat_of_ascii c in
  if (65 <=? n)%nat && (n <=? 90)%nat then ascii_of_nat (n + 32) else c.

Fixpoint toLowerCase (s : string) : string :=
  match s with
  | EmptyString => EmptyString
  | String c r => String (lower_ascii c) (toLowerCase r)
  end.

Definition Qltb (x y : Q) : bool := negb (Qle_bool y x).

(** [Math.floor], [Math.ceil], [Math.round] (round half up). *)
Definition Math_floor (x : Q) : Q := inject_Z (Qfloor x).
Definition Math_ceil (x : Q) : Q := inject_Z (Qceiling x).
Definition Math_round (x : Q) : Q := inject_Z (Qfloor (x + (1#2))).

(** ** Data model (types.ts and the SDK types the sources use) *)

Record GeoClaims : Type := { latitude : Q; longitude : Q; radius : Q }.

Record ChallengeOutcome : Type :=
  { challenge_succeeded : bool; ping_delay : Q }.

Record ConsolidatedResult : Type :=
  { KnowLoc : bool;
    KnowLocUncertainty : Q;
    ipapi_co : option bool;
    ipregistry : option bool;
    maxmind : option bool;
    verified : bool }.

Record WitnessChainChallengeResult : Type :=
  { id : string;
    challenge_start_time : string;
    challenger : string;
    challenger_id : string;
    challenger_claims : GeoClaims;
    claims : GeoClaims;
    result : ChallengeOutcome;
    message : string;
    signature : string;
    consolidated_result : ConsolidatedResult }.

(** The [location] member: absent ([undefined], which
    [!stamp.location] guards against), a string identifier, an object
    with a [coordinates] member read as [[lon, lat]] (the cast to
    [number[]]), or an object without one.  [null] is not a value of the
    declared type and is no value of [Location]; what the verifier and
    the evaluator do when a caller passes it all the same is in
    [verifyWitnessChainStamp_on] and [evaluateWitnessChainStamp_on]. *)
Inductive Location : Type :=
| LocAbsent
| LocId (s : string)
| LocGeo (lon lat : Q)
| LocNoCoordinates.

Record TimeWindow : Type := { tw_start : Q; tw_end : Q }.

Record Subject : Type := { scheme : string; subject_value : string }.

Record Signature : Type :=
  { sig_signer : Subject;
    sig_algorithm : string;
    sig_value : string;
    sig_timestamp : Q }.

(** [stamp.signals], with the members the sources read or write, typed
    by the casts the sources apply to them. *)
Record Signals : Type :=
  { challengeResult : option WitnessChainChallengeResult;
    challengeId : option string;
    signal_challenger : option string;
    challengerId : option string;
    challengerClaims : option GeoClaims;
    proverClaims : option GeoClaims;
    challengeSucceeded : option bool;
    pingDelayMicroseconds : option Q;
    consolidatedResult : option (gmap string jsval);
    knowLocUncertaintyKm : option Q }.

(** A stamp object.  [UnsignedLocationStamp] declares no [signatures]
    member and [LocationStamp] declares one; a value of the latter is
    assignable to the former, so one record with an optional member
    describes both. *)
Record Stamp : Type :=
  { lpVersion : string;
    locationType : string;
    location : Location;
    srs : string;
    temporalFootprint : option TimeWindow;
    plugin : string;
    pluginVersion : string;
    signals : Signals;
    signatures : option (list Signature) }.

Record LocationClaim : Type :=
  { claim_location : Location;
    claim_radius : Q;
    claim_time : TimeWindow }.

Record RawSignalsData : Type :=
  { data_challengeResult : option WitnessChainChallengeResult;
    data_proverClaims : option GeoClaims;
    data_proverId : option string }.

Record RawSignals : Type :=
  { rs_plugin : string; rs_timestamp : Q; rs_data : RawSignalsData }.

Record StampSigner : Type :=
  { signer : Subject;
    algorithm : string;
    signer_sign : string -> Exc string }.

Record StampVerificationResult : Type :=
  { valid : bool;
    signaturesValid : bool;
    structureValid : bool;
    signalsConsistent : bool;
    details : gmap string jsval }.

Record CredibilityVector : Type :=
  { supportsClaim : bool;
    score : Q;
    spatial : Q;
    temporal : Q;
    cv_details : gmap string jsval }.

(** Capabilities of the host the sources call into. *)
Class Host : Type :=
  { (** [ethers.verifyMessage(message, signature)] *)
    verifyMessage : string -> string -> Exc string;
    (** [JSON.stringify] on stamp objects *)
    JSON_stringify : Stamp -> string;
    (** [new Date(s).getTime()], in milliseconds, in the process the
        host stands for: a function of the string alone for timestamps
        with a zone designator such as the fixture's
        ["2026-01-15T12:00:00Z"], and of the time zone of the process
        too for the others ([in_zone]); [NaN], for a string that is no
        date, is outside the number model ([with_Date]) *)
    Date_getTime : string -> Q;
    (** [Math.PI], [Math.sin], [Math.cos], [Math.asin], [Math.sqrt] *)
    Math_PI : Q;
    Math_sin : Q -> Q;
    Math_cos : Q -> Q;
    Math_asin : Q -> Q;
    Math_sqrt : Q -> Q }.

(** The ambient state a call can observe besides its host: the clock
    behind [Date.now()]. *)
Record World : Type := { clock_ms : Q }.

(** A call: it may read the ambient state and may throw. *)
Definition Prog (A : Type) : Type := World -> Exc A.

Definition pure {A} (a : A) : Prog A := fun _ => Ok a.
Definition raise {A} (msg : string) : Prog A := fun _ => Throw msg.
Definition andThen {A B} (m : Prog A) (k : A -> Prog B) : Prog B :=
  fun w => match m w with Ok a => k a w | Throw e => Throw e end.
Definition Date_now : Prog Q := fun w => Ok (clock_ms w).
Definition await {A} (r : Exc A) : Prog A := fun _ => r.

(** Objects live in a store and are passed by reference; an object
    literal allocates a new cell and leaves every other cell alone. *)
Abbreviation Store := (list Stamp).

(** [details]: the assignments [details.k = v] in program order, and the
    object they leave behind. *)
Definition assign (m : gmap string jsval) (kv : string * jsval) : gmap string jsval :=
  <[kv.1 := kv.2]> m.
Definition details_of (writes : list (string * jsval)) : gmap string jsval :=
  foldl assign ∅ writes.

(** A verifier step: it updates the three flags and [details], and may
    throw; the state reached when an exception is thrown is kept, as a
    [catch] block sees it. *)
Record VState : Type :=
  { st_signaturesValid : bool;
    st_structureValid : bool;
    st_signalsConsistent : bool;
    st_details : list (string * jsval) }.

Definition Verifier (A : Type) : Type := VState -> Exc A * VState.

Definition vret {A} (a : A) : Verifier A := fun st => (Ok a, st).
Definition vbind {A B} (m : Verifier A) (k : A -> Verifier B) : Verifier B :=
  fun st => match m st with
            | (Ok a, st') => k a st'
            | (Throw e, st') => (Throw e, st')
            end.
Definition call {A} (r : Exc A) : Verifier A := fun st => (r, st).
Definition try_catch (body : Verifier unit) (handler : string -> Verifier unit)
  : Verifier unit :=
  fun st => match body st with
            | (Ok a, st') => (Ok a, st')
            | (Throw e, st') => handler e st'
            end.
Definition set_signaturesValid (b : bool) : Verifier unit :=
  fun st => (Ok tt, {| st_signaturesValid := b;
                       st_structureValid := st_structureValid st;
                       st_signalsConsistent := st_signalsConsistent st;
                       st_details := st_details st |}).
Definition set_structureValid (b : bool) : Verifier unit :=
  fun st => (Ok tt, {| st_signaturesValid := st_signaturesValid st;
                       st_structureValid := b;
                       st_signalsConsistent := st_signalsConsistent st;
                       st_details := st_details st |}).
Definition set_signalsConsistent (b : bool) : Verifier unit :=
  fun st => (Ok tt, {| st_signaturesValid := st_signaturesValid st;
                       st_structureValid := st_structureValid st;
                       st_signalsConsistent := b;
                       st_details := st_details st |}).
(** [details.key = v] *)
Definition set_detail (key : string) (v : jsval) : Verifier unit :=
  fun st => (Ok tt, {| st_signaturesValid := st_signaturesValid st;
                       st_structureValid := st_structureValid st;
                       st_signalsConsistent := st_signalsConsistent st;
                       st_details := (st_details st ++ [(key, v)])%list |}).
Definition when (c : bool) (body : Verifier unit) : Verifier unit :=
  if c then body else vret tt.
Fixpoint for_of {A} (l : list A) (body : A -> Verifier unit) : Verifier unit :=
  match l with
  | [] => vret tt
  | x :: rest => vbind (body x) (fun _ => for_of rest body)
  end.

Notation "a >> b" := (vbind a (fun _ => b))
  (at level 90, right associativity, only parsing).
Notation "'do*' x ':=' m 'in' k" := (vbind m (fun x => k))
  (at level 10, x name, m at level 100, k at level 200, only parsing).

Definition initial_state : VState :=
  {| st_signaturesValid := true;
     st_structureValid := true;
     st_signalsConsistent := true;
     st_details := [] |}.

(** [!s] on an optional string: absent or empty. *)
Definition falsy_string (s : option string) : bool :=
  match s with
  | None => true
  | Some s => bool_decide (s = "")
  end.

(** [!stamp.location] *)
Definition falsy_location (l : Location) : bool :=
  match l with
  | LocAbsent => true
  | LocId s => bool_decide (s = "")
  | _ => false
  end.

Definition is_absent {A} (o : option A) : bool :=
  match o with None => true | Some _ => false end.

(** [const { signatures: _, ...unsigned } = stamp] *)
Definition without_signatures (stamp : Stamp) : Stamp :=
  {| lpVersion := lpVersion stamp;
     locationType := locationType stamp;
     location := location stamp;
     srs := srs stamp;
     temporalFootprint := temporalFootprint stamp;
     plugin := plugin stamp;
     pluginVersion := pluginVersion stamp;
     signals := signals stamp;
     signatures := None |}.

Definition pair_value (expected recovered : string) : jsval :=
  VObj [("expected", VStr expected); ("recovered", VStr recovered)].

Notation "'let*' x ':=' m 'in' k" := (andThen m (fun x => k))
  (at level 10, x name, m at level 100, k at level 200, only parsing).

Section Sources.
Context `{host : Host}.
Local Open Scope Q_scope.

(** ** collect.ts *)

Definition signalsFromChallengeResult (r : WitnessChainChallengeResult)
  : Prog RawSignals :=
  pure {| rs_plugin := "witnesschain";
          rs_timestamp := Math_floor (Date_getTime (challenge_start_time r) / 1000);
          rs_data := {| data_challengeResult := Some r;
                        data_proverClaims := Some (claims r);
                        data_proverId := None |} |}.

(** ** create.ts *)

Definition PLUGIN_NAME : string := "witnesschain".
Definition PLUGIN_VERSION : string := "0.1.0".

Definition set_optional (key : string) (v : option bool)
  (m : gmap string jsval) : gmap string jsval :=
  match v with Some b => <[key := VBool b]> m | None => m end.

(** The typed [consolidated_result] seen as a [Record<string, unknown>]. *)
Definition record_of_consolidated (c : ConsolidatedResult) : gmap string jsval :=
  set_optional "maxmind" (maxmind c)
    (set_optional "ipregistry" (ipregistry c)
      (set_optional "ipapi.co" (ipapi_co c)
        (<["verified" := VBool (verified c)]>
          (<["KnowLocUncertainty" := VNum (KnowLocUncertainty c)]>
            (<["KnowLoc" := VBool (KnowLoc c)]> ∅))))).

Definition createWitnessChainStamp (signals : RawSignals) : Prog Stamp :=
  match data_challengeResult (rs_data signals) with
  | None => raise "WitnessChain signals must include challengeResult"
  | Some challengeResult =>
    let startTime :=
      Math_floor (Date_getTime (challenge_start_time challengeResult) / 1000) in
    let durationSeconds :=
      Qmax 10 (Math_ceil (ping_delay (result challengeResult) / 1000000) + 5) in
    pure
      {| lpVersion := "0.2";
         locationType := "geojson-point";
         location := LocGeo (longitude (claims challengeResult))
                            (latitude (claims challengeResult));
         srs := "EPSG:4326";
         temporalFootprint :=
           Some {| tw_start := startTime; tw_end := startTime + durationSeconds |};
         plugin := PLUGIN_NAME;
         pluginVersion := PLUGIN_VERSION;
         signals :=
           {| challengeResult := None;
              challengeId := Some (id challengeResult);
              signal_challenger := Some (challenger challengeResult);
              challengerId := Some (challenger_id challengeResult);
              challengerClaims := Some (challenger_claims challengeResult);
              proverClaims := Some (claims challengeResult);
              challengeSucceeded := Some (challenge_succeeded (result challengeResult));
              pingDelayMicroseconds := Some (ping_delay (result challengeResult));
              consolidatedResult :=
                Some (record_of_consolidated (consolidated_result challengeResult));
              knowLocUncertaintyKm :=
                Some (KnowLocUncertainty (consolidated_result challengeResult)) |};
         signatures := None |}
  end.

(** ** index.ts: [WitnessChainPlugin.sign] *)


Definition alloc (σ : Store) (o : Stamp) : nat * Store :=
  (length σ, (σ ++ [o])%list).

(** [{ ...stamp, signatures: sigs }] *)
Definition spread_with_signatures (stamp : Stamp) (sigs : list Signature) : Stamp :=
  {| lpVersion := lpVersion stamp;
     locationType := locationType stamp;
     location := location stamp;
     srs := srs stamp;
     temporalFootprint := temporalFootprint stamp;
     plugin := plugin stamp;
     pluginVersion := pluginVersion stamp;
     signals := signals stamp;
     signatures := Some sigs |}.

Definition sign (σ : Store) (stampRef : nat) (k : StampSigner)
  : Prog (nat * Store) :=
  match σ !! stampRef with
  | None => raise "TypeError: stamp is not an object"
  | Some stamp =>
    let data := JSON_stringify stamp in
    let* sigValue := await (signer_sign k data) in
    let* ms := Date_now in
    let now := Math_floor (ms / 1000) in
    pure (alloc σ
            (spread_with_signatures stamp
               [ {| sig_signer := signer k;
                    sig_algorithm := algorithm k;
                    sig_value := sigValue;
                    sig_timestamp := now |} ]))
  end.

(** ** verify.ts *)

Definition check_structure (stamp : Stamp) : Verifier unit :=
  when (negb (bool_decide (lpVersion stamp = "0.2")))
    (set_structureValid false >>
     set_detail "lpVersionError"
       (VStr ("Expected '0.2', got '" +:+ lpVersion stamp +:+ "'"))) >>
  when (negb (bool_decide (plugin stamp = "witnesschain")))
    (set_structureValid false >>
     set_detail "pluginMismatch"
       (VStr ("Expected 'witnesschain', got '" +:+ plugin stamp +:+ "'"))) >>
  when (falsy_location (location stamp) || is_absent (temporalFootprint stamp))
    (set_structureValid false >>
     set_detail "missingFields" (VBool true)) >>
  when (is_absent (challengeResult (signals stamp)))
    (when (falsy_string (challengeId (signals stamp))
           || is_absent (challengeSucceeded (signals stamp)))
       (set_structureValid false >>
        set_detail "missingChallengeData" (VBool true))).

Definition check_challenge_signature (stamp : Stamp) : Verifier unit :=
  match challengeResult (signals stamp) with
  | Some challengeResult =>
    try_catch
      (do* recovered :=
         call (verifyMessage (message challengeResult) (signature challengeResult)) in
       if negb (bool_decide (toLowerCase recovered
                             = toLowerCase (challenger challengeResult)))
       then
         set_signaturesValid false >>
         set_detail "challengeSignatureMismatch"
           (pair_value (challenger challengeResult) recovered)
       else
         set_detail "challengeSignerVerified" (VBool true) >>
         set_detail "recoveredAddress" (VStr recovered))
      (fun e =>
         set_signaturesValid false >>
         set_detail "challengeSignatureError" (VStr e))
  | None => vret tt
  end.

(** The body of the loop over [stamp.signatures]. *)
Definition check_one_signature (stamp : Stamp) (sig : Signature) : Verifier unit :=
  try_catch
    (let unsigned := without_signatures stamp in
     let message := JSON_stringify unsigned in
     do* recovered := call (verifyMessage message (sig_value sig)) in
     when (negb (bool_decide (toLowerCase recovered
                              = toLowerCase (subject_value (sig_signer sig)))))
       (set_signaturesValid false >>
        set_detail "stampSignatureMismatch"
          (pair_value (subject_value (sig_signer sig)) recovered)))
    (fun e =>
       set_signaturesValid false >>
       set_detail "stampSignatureError" (VStr e)).

Definition check_stamp_signatures (stamp : Stamp) : Verifier unit :=
  match signatures stamp with
  | Some (sig :: rest) => for_of (sig :: rest) (check_one_signature stamp)
  | _ =>
    when (is_absent (challengeResult (signals stamp)))
      (set_signaturesValid false >>
       set_detail "noSignatures" (VBool true))
  end.

Definition check_signal_consistency (stamp : Stamp) : Verifier unit :=
  match location stamp with
  | LocGeo lon lat =>
    when (Qltb lon (-180) || Qltb 180 lon)
      (set_signalsConsistent false >>
       set_detail "invalidLongitude" (VNum lon)) >>
    when (Qltb lat (-90) || Qltb 90 lat)
      (set_signalsConsistent false >>
       set_detail "invalidLatitude" (VNum lat))
  | _ => vret tt
  end >>
  when (bool_decide (challengeSucceeded (signals stamp) = Some false))
    (set_detail "challengeFailed" (VBool true)) >>
  match consolidatedResult (signals stamp) with
  | Some consolidated =>
    when (negb (is_boolean (prop consolidated "KnowLoc")))
      (set_signalsConsistent false >>
       set_detail "invalidConsolidatedResult" (VStr "KnowLoc must be boolean"))
  | None => vret tt
  end.

Definition verify_body (stamp : Stamp) : Verifier unit :=
  check_structure stamp >>
  check_challenge_signature stamp >>
  check_stamp_signatures stamp >>
  check_signal_consistency stamp.

Definition verifyWitnessChainStamp (stamp : Stamp) : Exc StampVerificationResult :=
  match verify_body stamp initial_state with
  | (Ok _, st) =>
    Ok {| valid := st_signaturesValid st && st_structureValid st
                   && st_signalsConsistent st;
          signaturesValid := st_signaturesValid st;
          structureValid := st_structureValid st;
          signalsConsistent := st_signalsConsistent st;
          details := details_of (st_details st) |}
  | (Throw e, _) => Throw e
  end.

(** ** evaluate.ts *)

Definition EARTH_RADIUS_M : Q := 6371000.

Definition haversineDistance (lat1 lon1 lat2 lon2 : Q) : Q :=
  let toRad := fun deg : Q => (deg * Math_PI) / 180 in
  let dLat := toRad (lat2 - lat1) in
  let dLon := toRad (lon2 - lon1) in
  let a :=
    Math_sin (dLat / 2) ^ 2 +
    Math_cos (toRad lat1) * Math_cos (toRad lat2) * Math_sin (dLon / 2) ^ 2 in
  2 * EARTH_RADIUS_M * Math_asin (Math_sqrt a).

Definition temporalOverlap (a b : TimeWindow) : Q :=
  let overlapStart := Qmax (tw_start a) (tw_start b) in
  let overlapEnd := Qmin (tw_end a) (tw_end b) in
  if Qle_bool overlapEnd overlapStart then 0
  else
    let overlap := overlapEnd - overlapStart in
    let shorter := Qmin (tw_end a - tw_start a) (tw_end b - tw_start b) in
    if Qltb 0 shorter then overlap / shorter else 0.

(** Lines 109-114: the base spatial score, from the distance and the
    effective radius.  At an effective radius of 0 the quotient of the
    code is an infinity or [NaN], outside the number model: what is said
    below of the value of the score is said for a radius other than 0. *)
Definition spatial_base (distance effectiveRadius : Q) : Q :=
  if Qle_bool distance effectiveRadius
  then 1 - distance / effectiveRadius
  else Qmax 0 (1 - distance / (effectiveRadius * 3)).

(** The evaluator's mutable locals [spatial] and [details]. *)
Definition EState : Type := Q * list (string * jsval).

(** The loop over the three IP geolocation sources: one step per key, on
    the counters [(ipSourcesAgreed, ipSourcesTotal)]. *)
Definition count_source (consolidated : gmap string jsval)
  (counters : Z * Z) (key : string) : Z * Z :=
  if is_defined (prop consolidated key)
  then ((if is_true (prop consolidated key)
         then (counters.1 + 1)%Z else counters.1),
        (counters.2 + 1)%Z)
  else counters.

Definition count_sources (consolidated : gmap string jsval) : Z * Z :=
  foldl (count_source consolidated) (0%Z, 0%Z)
        ["ipapi.co"; "ipregistry"; "maxmind"].

Definition ip_bonus (consolidated : gmap string jsval) (st : EState) : EState :=
  let ipSourcesAgreed := (count_sources consolidated).1 in
  let ipSourcesTotal := (count_sources consolidated).2 in
  if (0 <? ipSourcesTotal)%Z then
    let ipAgreementRatio := inject_Z ipSourcesAgreed / inject_Z ipSourcesTotal in
    (Qmin 1 (st.1 + ipAgreementRatio * 0.1),
     (st.2 ++ [("ipSourcesAgreed", VNum (inject_Z ipSourcesAgreed));
               ("ipSourcesTotal", VNum (inject_Z ipSourcesTotal))])%list)
  else st.

Definition knowLoc_bonus (consolidated : gmap string jsval) (st : EState) : EState :=
  if is_true (prop consolidated "KnowLoc")
  then (Qmin 1 (st.1 + 0.05), (st.2 ++ [("knowLocVerified", VBool true)])%list)
  else st.

Definition verified_bonus (consolidated : gmap string jsval) (st : EState) : EState :=
  if is_true (prop consolidated "verified")
  then (Qmin 1 (st.1 + 0.05), (st.2 ++ [("consolidatedVerified", VBool true)])%list)
  else st.

(** Lines 116-151: the multi-source verification bonuses. *)
Definition apply_bonuses (consolidated : option (gmap string jsval))
  (st : EState) : EState :=
  match consolidated with
  | Some c => verified_bonus c (knowLoc_bonus c (ip_bonus c st))
  | None => st
  end.

(** Lines 157-162. *)
Definition challenge_penalty (stamp : Stamp) : Q :=
  if bool_decide (challengeSucceeded (signals stamp) = Some false) then 0.3 else 0.

Definition error_vector (msg : string) : CredibilityVector :=
  {| supportsClaim := false; score := 0; spatial := 0; temporal := 0;
     cv_details := details_of [("error", VStr msg)] |}.

Definition evaluateWitnessChainStamp (stamp : Stamp) (claim : LocationClaim)
  : Exc CredibilityVector :=
  match location stamp with
  | LocGeo stampLon stampLat =>
    match claim_location claim with
    | LocGeo claimLon claimLat =>
      let distance := haversineDistance stampLat stampLon claimLat claimLon in
      let knowLocUncertaintyKm :=
        default 50 (knowLocUncertaintyKm (signals stamp)) in
      let uncertaintyMeters := knowLocUncertaintyKm * 1000 in
      let effectiveRadius := claim_radius claim + uncertaintyMeters in
      let st0 : EState :=
        (spatial_base distance effectiveRadius,
         [("distanceMeters", VNum (Math_round distance));
          ("effectiveRadiusMeters", VNum effectiveRadius);
          ("knowLocUncertaintyKm", VNum knowLocUncertaintyKm)]) in
      let st1 := apply_bonuses (consolidatedResult (signals stamp)) st0 in
      let spatial := st1.1 in
      match temporalFootprint stamp with
      | None => Throw "TypeError: Cannot read properties of undefined (reading 'start')"
      | Some footprint =>
        let temporal := temporalOverlap footprint (claim_time claim) in
        let details1 := (st1.2 ++ [("temporalOverlap", VNum temporal)])%list in
        let challengePenalty := challenge_penalty stamp in
        let details2 :=
          if bool_decide (challengeSucceeded (signals stamp) = Some false)
          then (details1 ++ [("challengeFailedPenalty", VNum challengePenalty)])%list
          else details1 in
        let rawScore := spatial * 0.65 + temporal * 0.35 - challengePenalty in
        let score := Qmax 0 (Qmin 1 rawScore) in
        let supportsClaim :=
          Qltb 0.3 score && Qltb 0.1 spatial && Qltb 0 temporal in
        Ok {| supportsClaim := supportsClaim;
              score := score;
              spatial := spatial;
              temporal := temporal;
              cv_details := details_of details2 |}
      end
    | _ => Ok (error_vector "Cannot extract coordinates from claim location")
    end
  | _ => Ok (error_vector "Cannot extract coordinates from stamp location")
  end.

End Sources.

(** ** The verifier, phase by phase

    What each phase of [verifyWitnessChainStamp] contributes: the
    conjunct it puts on its flag, and the assignments it makes to
    [details].  The properties below relate them to the code. *)

Section Phases.
Context `{host : Host}.
Local Open Scope Q_scope.

Definition keys (writes : list (string * jsval)) : list string := writes.*1.

Definition extend (st : VState) (sv stv sc : bool)
  (writes : list (string * jsval)) : VState :=
  {| st_signaturesValid := st_signaturesValid st && sv;
     st_structureValid := st_structureValid st && stv;
     st_signalsConsistent := st_signalsConsistent st && sc;
     st_details := (st_details st ++ writes)%list |}.

(** [runs m a b c ws]: from every state, [m] returns normally, puts the
    conjuncts [a], [b], [c] on the three flags and appends [ws]. *)
Definition runs (m : Verifier unit) (a b c : bool)
  (ws : list (string * jsval)) : Prop :=
  forall st, m st = (Ok tt, extend st a b c ws).

Definition missing_challenge_data (stamp : Stamp) : bool :=
  is_absent (challengeResult (signals stamp))
  && (falsy_string (challengeId (signals stamp))
      || is_absent (challengeSucceeded (signals stamp))).

Definition structure_ok (stamp : Stamp) : bool :=
  bool_decide (lpVersion stamp = "0.2")
  && bool_decide (plugin stamp = "witnesschain")
  && negb (falsy_location (location stamp) || is_absent (temporalFootprint stamp))
  && negb (missing_challenge_data stamp).

Definition structure_writes (stamp : Stamp) : list (string * jsval) :=
  ((if bool_decide (lpVersion stamp = "0.2") then []
    else [("lpVersionError",
           VStr ("Expected '0.2', got '" +:+ lpVersion stamp +:+ "'"))])
   ++ (if bool_decide (plugin stamp = "witnesschain") then []
       else [("pluginMismatch",
              VStr ("Expected 'witnesschain', got '" +:+ plugin stamp +:+ "'"))])
   ++ (if falsy_location (location stamp) || is_absent (temporalFootprint stamp)
       then [("missingFields", VBool true)] else [])
   ++ (if missing_challenge_data stamp
       then [("missingChallengeData", VBool true)] else []))%list.

(** Outcome of recovering a signer and comparing it, case-insensitively,
    with the declared one. *)
Inductive Recovery : Type :=
| Matches (recovered : string)
| Mismatch (recovered : string)
| RecoveryError (msg : string).

Definition recovery (msg sigv declared : string) : Recovery :=
  match verifyMessage msg sigv with
  | Ok recovered =>
    if bool_decide (toLowerCase recovered = toLowerCase declared)
    then Matches recovered else Mismatch recovered
  | Throw e => RecoveryError e
  end.

Definition recovery_ok (r : Recovery) : bool :=
  match r with Matches _ => true | _ => false end.

Definition challenge_recovery (c : WitnessChainChallengeResult) : Recovery :=
  recovery (message c) (signature c) (challenger c).

Definition challenge_signature_ok (stamp : Stamp) : bool :=
  match challengeResult (signals stamp) with
  | Some c => recovery_ok (challenge_recovery c)
  | None => true
  end.

Definition challenge_signature_writes (stamp : Stamp) : list (string * jsval) :=
  match challengeResult (signals stamp) with
  | Some c =>
    match challenge_recovery c with
    | Matches recovered =>
      [("challengeSignerVerified", VBool true); ("recoveredAddress", VStr recovered)]
    | Mismatch recovered =>
      [("challengeSignatureMismatch", pair_value (challenger c) recovered)]
    | RecoveryError e => [("challengeSignatureError", VStr e)]
    end
  | None => []
  end.

Definition wrapper_recovery (stamp : Stamp) (sig : Signature) : Recovery :=
  recovery (JSON_stringify (without_signatures stamp)) (sig_value sig)
           (subject_value (sig_signer sig)).

Definition wrapper_writes (stamp : Stamp) (sig : Signature)
  : list (string * jsval) :=
  match wrapper_recovery stamp sig with
  | Matches _ => []
  | Mismatch recovered =>
    [("stampSignatureMismatch",
      pair_value (subject_value (sig_signer sig)) recovered)]
  | RecoveryError e => [("stampSignatureError", VStr e)]
  end.

Definition wrappers_ok (stamp : Stamp) (sigs : list Signature) : bool :=
  forallb (fun sig => recovery_ok (wrapper_recovery stamp sig)) sigs.

Definition wrappers_writes (stamp : Stamp) (sigs : list Signature)
  : list (string * jsval) :=
  concat (map (wrapper_writes stamp) sigs).

(** No wrapper signature to verify: the sequence is absent or empty. *)
Definition no_wrapper_signature (stamp : Stamp) : bool :=
  match signatures stamp with
  | Some (_ :: _) => false
  | _ => true
  end.

Definition stamp_signatures_ok (stamp : Stamp) : bool :=
  match signatures stamp with
  | Some (sig :: rest) => wrappers_ok stamp (sig :: rest)
  | _ => negb (is_absent (challengeResult (signals stamp)))
  end.

Definition stamp_signatures_writes (stamp : Stamp) : list (string * jsval) :=
  match signatures stamp with
  | Some (sig :: rest) => wrappers_writes stamp (sig :: rest)
  | _ =>
    if is_absent (challengeResult (signals stamp))
    then [("noSignatures", VBool true)] else []
  end.

Definition longitude_ok (lon : Q) : bool := negb (Qltb lon (-180) || Qltb 180 lon).
Definition latitude_ok (lat : Q) : bool := negb (Qltb lat (-90) || Qltb 90 lat).

Definition coordinates_ok (l : Location) : bool :=
  match l with
  | LocGeo lon lat => longitude_ok lon && latitude_ok lat
  | _ => true
  end.

Definition coordinates_writes (l : Location) : list (string * jsval) :=
  match l with
  | LocGeo lon lat =>
    ((if longitude_ok lon then [] else [("invalidLongitude", VNum lon)])
     ++ (if latitude_ok lat then [] else [("invalidLatitude", VNum lat)]))%list
  | _ => []
  end.

Definition consolidated_ok (stamp : Stamp) : bool :=
  match consolidatedResult (signals stamp) with
  | Some consolidated => is_boolean (prop consolidated "KnowLoc")
  | None => true
  end.

Definition signals_ok (stamp : Stamp) : bool :=
  coordinates_ok (location stamp) && consolidated_ok stamp.

Definition signal_writes (stamp : Stamp) : list (string * jsval) :=
  (coordinates_writes (location stamp)
   ++ (if bool_decide (challengeSucceeded (signals stamp) = Some false)
       then [("challengeFailed", VBool true)] else [])
   ++ (if consolidated_ok stamp then []
       else [("invalidConsolidatedResult", VStr "KnowLoc must be boolean")]))%list.

(** All assignments to [details] of one call, in program order. *)
Definition verify_writes (stamp : Stamp) : list (string * jsval) :=
  (structure_writes stamp ++ challenge_signature_writes stamp
   ++ stamp_signatures_writes stamp ++ signal_writes stamp)%list.

End Phases.

(** Keys each phase may write, in program order. *)
Definition structure_keys : list string :=
  ["lpVersionError"; "pluginMismatch"; "missingFields"; "missingChallengeData"].
Definition challenge_keys : list string :=
  ["challengeSignatureMismatch"; "challengeSignerVerified"; "recoveredAddress";
   "challengeSignatureError"].
Definition signal_keys : list string :=
  ["invalidLongitude"; "invalidLatitude"; "challengeFailed";
   "invalidConsolidatedResult"].

(** Keys written inside the loop over the wrapper signatures. *)
Definition loop_keys : list string :=
  ["stampSignatureMismatch"; "stampSignatureError"].

(** Keys written outside that loop. *)
Definition static_keys : list string :=
  (structure_keys ++ challenge_keys ++ ["noSignatures"] ++ signal_keys)%list.

Definition outside_loop (k : string) : Prop := k ∉ loop_keys.

(** ** The wording of the specification *)

(** [clamp(x, lo, hi)] *)
Definition clamp (x lo hi : Q) : Q :=
  if Qltb x lo then lo else if Qltb hi x then hi else x.

(** The penalty of step 7: 0.3 when the success flag is false. *)
Definition penalty (stamp : Stamp) : Q :=
  match challengeSucceeded (signals stamp) with
  | Some false => 0.3%Q
  | _ => 0%Q
  end.

(** The bonus-adjusted spatial component of a point-shaped pair. *)
Definition adjusted_spatial `{host : Host} (stamp : Stamp) (claim : LocationClaim)
  (lon lat clon clat : Q) : Q :=
  let distance := haversineDistance lat lon clat clon in
  let effectiveRadius :=
    (claim_radius claim
     + default 50%Q (knowLocUncertaintyKm (signals stamp)) * 1000)%Q in
  (apply_bonuses (consolidatedResult (signals stamp))
     (spatial_base distance effectiveRadius, [])).1.

(** The otherwise-identical stamp with another success flag. *)
Definition with_challengeSucceeded (b : bool) (stamp : Stamp) : Stamp :=
  {| lpVersion := lpVersion stamp;
     locationType := locationType stamp;
     location := location stamp;
     srs := srs stamp;
     temporalFootprint := temporalFootprint stamp;
     plugin := plugin stamp;
     pluginVersion := pluginVersion stamp;
     signals :=
       {| challengeResult := challengeResult (signals stamp);
          challengeId := challengeId (signals stamp);
          signal_challenger := signal_challenger (signals stamp);
          challengerId := challengerId (signals stamp);
          challengerClaims := challengerClaims (signals stamp);
          proverClaims := proverClaims (signals stamp);
          challengeSucceeded := Some b;
          pingDelayMicroseconds := pingDelayMicroseconds (signals stamp);
          consolidatedResult := consolidatedResult (signals stamp);
          knowLocUncertaintyKm := knowLocUncertaintyKm (signals stamp) |};
     signatures := signatures stamp |}.

(** The signature record [sign] builds. *)
Definition new_signature (k : StampSigner) (sigValue : string) (w : World)
  : Signature :=
  {| sig_signer := signer k;
     sig_algorithm := algorithm k;
     sig_value := sigValue;
     sig_timestamp := Math_floor (clock_ms w / 1000) |}.

(** The normalize-then-build pipeline. *)
Definition pipeline `{host : Host} (e : WitnessChainChallengeResult) : Prog Stamp :=
  let* bundle := signalsFromChallengeResult e in createWitnessChainStamp bundle.

(** A wrapper signature whose recovered signer differs from the declared
    one, and one whose recovery throws. *)
Definition wrapper_mismatch `{host : Host} (stamp : Stamp) (sig : Signature)
  (recovered : string) : Prop :=
  verifyMessage (JSON_stringify (without_signatures stamp)) (sig_value sig)
    = Ok recovered
  /\ toLowerCase recovered <> toLowerCase (subject_value (sig_signer sig)).


(** The assignments to [details] the code has made when it returns. *)
Definition assignments `{host : Host} (stamp : Stamp) : list (string * jsval) :=
  st_details (verify_body stamp initial_state).2.

(** ** Sample inputs

    The values of the test suite and of its challenge fixture, and a
    stand-in host to run the model on them: a signature is its
    signer's address in clear and the empty signature is rejected. *)

(** Polynomial stand-ins for the trigonometry of the host, on twelve
    decimals; within 1e-5 of it on the arguments of the sample inputs. *)
Definition fix12 (x : Q) : Q :=
  (Qfloor (x * 1000000000000) # 1000000000000)%Q.
Definition approx_sin (x : Q) : Q :=
  let x := fix12 x in
  fix12 (x - x^3 / 6 + x^5 / 120 - x^7 / 5040 + x^9 / 362880)%Q.
Definition approx_cos (x : Q) : Q :=
  let x := fix12 x in
  fix12 (1 - x^2 / 2 + x^4 / 24 - x^6 / 720 + x^8 / 40320)%Q.
Definition approx_asin (x : Q) : Q :=
  let x := fix12 x in
  fix12 (x + x^3 / 6 + 3 * x^5 / 40 + 5 * x^7 / 112 + 35 * x^9 / 1152)%Q.
Fixpoint newton_sqrt (n : nat) (a x : Q) : Q :=
  match n with
  | O => x
  | S n' => newton_sqrt n' a (fix12 ((x + a / x) / 2))%Q
  end.
Definition approx_sqrt (a : Q) : Q :=
  if Qle_bool a 0 then 0%Q else newton_sqrt 8 (fix12 a) 1%Q.

Definition sample_host : Host :=
  {| verifyMessage := fun _ sigv =>
       if bool_decide (sigv = "") then Throw "invalid signature" else Ok sigv;
     JSON_stringify := fun stamp => plugin stamp +:+ "/" +:+ lpVersion stamp;
     Date_getTime := fun _ => 1768478400000%Q;
     Math_PI := 3.141592653589793%Q;
     Math_sin := approx_sin;
     Math_cos := approx_cos;
     Math_asin := approx_asin;
     Math_sqrt := approx_sqrt |}.

Definition TEST_CHALLENGER_ADDRESS : string :=
  "0xf39Fd6e51aad88F6F4ce6aB8827279cffFb92266".

Definition challenge_fixture_signed (sigv : string) : WitnessChainChallengeResult :=
  {| id := "challenge-001";
     challenge_start_time := "2026-01-15T12:00:00Z";
     challenger := TEST_CHALLENGER_ADDRESS;
     challenger_id := "watchtower-nyc-01";
     challenger_claims :=
       {| latitude := 40.7128%Q; longitude := (-74.006)%Q; radius := 50%Q |};
     claims :=
       {| latitude := 40.7484%Q; longitude := (-73.9857)%Q; radius := 100%Q |};
     result := {| challenge_succeeded := true; ping_delay := 15000%Q |};
     message := "challenge-001 payload";
     signature := sigv;
     consolidated_result :=
       {| KnowLoc := true; KnowLocUncertainty := 5.2%Q;
          ipapi_co := Some true; ipregistry := Some true; maxmind := Some false;
          verified := true |} |}.

Definition challenge_fixture : WitnessChainChallengeResult :=
  challenge_fixture_signed TEST_CHALLENGER_ADDRESS.

Definition failed_signals : Signals :=
  {| challengeResult := None;
     challengeId := Some "challenge-fail-001";
     signal_challenger := Some TEST_CHALLENGER_ADDRESS;
     challengerId := Some "watchtower-nyc-01";
     challengerClaims :=
       Some {| latitude := 40.7128%Q; longitude := (-74.006)%Q; radius := 50%Q |};
     proverClaims :=
       Some {| latitude := 40.7484%Q; longitude := (-73.9857)%Q; radius := 100%Q |};
     challengeSucceeded := Some false;
     pingDelayMicroseconds := Some 500000%Q;
     consolidatedResult :=
       Some (record_of_consolidated
               {| KnowLoc := false; KnowLocUncertainty := 150%Q;
                  ipapi_co := None; ipregistry := None; maxmind := None;
                  verified := false |});
     knowLocUncertaintyKm := Some 150%Q |}.

(** The stamp of the failed challenge of the fixture, in New York. *)
Definition failed_stamp : Stamp :=
  {| lpVersion := "0.2";
     locationType := "geojson-point";
     location := LocGeo (-73.9857)%Q 40.7484%Q;
     srs := "EPSG:4326";
     temporalFootprint :=
       Some {| tw_start := 1768478400%Q; tw_end := 1768478410%Q |};
     plugin := "witnesschain";
     pluginVersion := "0.1.0";
     signals := failed_signals;
     signatures := None |}.

(** The same stamp located by a cell identifier instead of a point. *)
Definition cell_stamp : Stamp :=
  {| lpVersion := "0.2";
     locationType := "h3";
     location := LocId "h3:8928308280fffff";
     srs := "EPSG:4326";
     temporalFootprint :=
       Some {| tw_start := 1768478400%Q; tw_end := 1768478410%Q |};
     plugin := "witnesschain";
     pluginVersion := "0.1.0";
     signals := failed_signals;
     signatures := None |}.

Definition nearClaim : LocationClaim :=
  {| claim_location := LocGeo (-73.9857)%Q 40.7484%Q;
     claim_radius := 500%Q;
     claim_time := {| tw_start := 1768478100%Q; tw_end := 1768478700%Q |} |}.

(** A claim in London over the first hour of 2025. *)
Definition londonClaim : LocationClaim :=
  {| claim_location := LocGeo (-0.1276)%Q 51.5074%Q;
     claim_radius := 100%Q;
     claim_time := {| tw_start := 1735689600%Q; tw_end := 1735693200%Q |} |}.

Definition sample_signer (address : string) : StampSigner :=
  {| signer := {| scheme := "eth-address"; subject_value := address |};
     algorithm := "secp256k1";
     signer_sign := fun _ => Ok address |}.

Definition wrapper (declared sigv : string) : Signature :=
  {| sig_signer := {| scheme := "eth-address"; subject_value := declared |};
     sig_algorithm := "secp256k1";
     sig_value := sigv;
     sig_timestamp := 1768478500%Q |}.

(** Two wrapper signatures, neither of which recovers to its declared
    signer. *)
Definition twice_missigned_stamp : Stamp :=
  spread_with_signatures failed_stamp
    [wrapper "0xaaa1" "0xbbb1"; wrapper "0xaaa2" "0xbbb2"].



Definition sample_world : World := {| clock_ms := 1768478500123%Q |}.

(** ** collect.ts: [collectWitnessChain], and the plugin's [collect] *)

Record WitnessChainPluginOptions : Type :=
  { apiUrl : option string;
    privateKey : option string;
    sessionCookie : option string }.

(** An entry of the all-provers endpoint, as the cast of the response
    body types it. *)
Record ProverEntry : Type :=
  { prover_id : string;
    prover_results : list WitnessChainChallengeResult;
    prover_claims : GeoClaims }.

(** A [fetch] response: [ok], [status], [statusText] and what
    [await response.json()] gives. *)
Record Response : Type :=
  { ok : bool;
    status : N;
    statusText : string;
    json : Exc (list ProverEntry) }.

(** [fetch(url, { headers })] *)
Class Network : Type :=
  { fetch : string -> gmap string string -> Exc Response }.

Definition AUTH_REQUIRED : string :=
  "WitnessChain collect requires authentication. "
  +:+ "Provide a privateKey for wallet auth or a sessionCookie.".

Definition PROVER_ID_REQUIRED : string :=
  "WitnessChain collect requires a proverId. "
  +:+ "Pass it in the constructor options.".

(** The headers of the request: the content type, and the cookie when
    [options.sessionCookie] is truthy. *)
Definition request_headers (options : WitnessChainPluginOptions)
  : gmap string string :=
  let headers : gmap string string := {["Content-Type" := "application/json"]} in
  match sessionCookie options with
  | Some cookie =>
    if falsy_string (Some cookie) then headers else <["Cookie" := cookie]> headers
  | None => headers
  end.

Definition request_url (options : WitnessChainPluginOptions) : string :=
  default "https://witnesschain.com" (apiUrl options) +:+ "/pol/all-provers".

Section Collect.
Context `{host : Host} `{net : Network}.
Local Open Scope Q_scope.

Definition collectWitnessChain (proverId : string)
  (options : WitnessChainPluginOptions) : Prog RawSignals :=
  if falsy_string (sessionCookie options) && falsy_string (privateKey options)
  then raise AUTH_REQUIRED
  else
    let* response := await (fetch (request_url options) (request_headers options)) in
    if negb (ok response)
    then raise ("WitnessChain API error: " +:+ pretty (status response)
                +:+ " " +:+ statusText response)
    else
      let* provers := await (json response) in
      match List.find (fun p => bool_decide (prover_id p = proverId)) provers with
      | None => raise ("Prover '" +:+ proverId +:+ "' not found")
      | Some prover =>
        let successfulResults :=
          List.filter (fun r => challenge_succeeded (result r))
                      (prover_results prover) in
        match successfulResults with
        | [] =>
          raise ("No successful challenges found for prover '" +:+ proverId +:+ "'")
        | latest :: _ =>
          pure {| rs_plugin := "witnesschain";
                  rs_timestamp :=
                    Math_floor (Date_getTime (challenge_start_time latest) / 1000);
                  rs_data := {| data_challengeResult := Some latest;
                                data_proverClaims := Some (prover_claims prover);
                                data_proverId := Some proverId |} |}
        end
      end.

(** index.ts: the plugin object and its [collect] method. *)
Record WitnessChainPlugin : Type :=
  { plugin_options : WitnessChainPluginOptions;
    plugin_proverId : option string }.

Definition plugin_collect (this : WitnessChainPlugin) : Prog RawSignals :=
  match plugin_proverId this with
  | Some proverId =>
    if falsy_string (Some proverId) then raise PROVER_ID_REQUIRED
    else collectWitnessChain proverId (plugin_options this)
  | None => raise PROVER_ID_REQUIRED
  end.

End Collect.

(** A stand-in network: one response for every request. *)
Definition network_of (r : Exc Response) : Network := {| fetch := fun _ _ => r |}.

Definition failed_fixture : WitnessChainChallengeResult :=
  {| id := "challenge-fail-001";
     challenge_start_time := "2026-01-15T12:00:00Z";
     challenger := TEST_CHALLENGER_ADDRESS;
     challenger_id := "watchtower-nyc-01";
     challenger_claims :=
       {| latitude := 40.7128%Q; longitude := (-74.006)%Q; radius := 50%Q |};
     claims :=
       {| latitude := 40.7484%Q; longitude := (-73.9857)%Q; radius := 100%Q |};
     result := {| challenge_succeeded := false; ping_delay := 500000%Q |};
     message := "challenge-fail-001 payload";
     signature := TEST_CHALLENGER_ADDRESS;
     consolidated_result :=
       {| KnowLoc := false; KnowLocUncertainty := 150%Q;
          ipapi_co := None; ipregistry := None; maxmind := None;
          verified := false |} |}.

Definition sample_provers : list ProverEntry :=
  [ {| prover_id := "prover-a";
       prover_results := [failed_fixture];
       prover_claims :=
         {| latitude := 48.8566%Q; longitude := 2.3522%Q; radius := 100%Q |} |};
    {| prover_id := "prover-nyc";
       prover_results := [failed_fixture; challenge_fixture; failed_fixture];
       prover_claims :=
         {| latitude := 40.7484%Q; longitude := (-73.9857)%Q; radius := 100%Q |} |} ].

Definition sample_network : Network :=
  network_of (Ok {| ok := true; status := 200%N; statusText := "OK";
                    json := Ok sample_provers |}).

Definition cookie_options : WitnessChainPluginOptions :=
  {| apiUrl := None; privateKey := None; sessionCookie := Some "session=abc" |}.

(** The embedded challenge signature, or a wrapper signature, recovers to
    its declared signer up to letter case. *)
Definition embedded_verifies `{host : Host} (c : WitnessChainChallengeResult)
  : Prop :=
  exists recovered,
    verifyMessage (message c) (signature c) = Ok recovered
    /\ toLowerCase recovered = toLowerCase (challenger c).

Definition wrapper_verifies `{host : Host} (stamp : Stamp) (sig : Signature)
  : Prop :=
  exists recovered,
    verifyMessage (JSON_stringify (without_signatures stamp)) (sig_value sig)
      = Ok recovered
    /\ toLowerCase recovered = toLowerCase (subject_value (sig_signer sig)).

(** The failed stamp under one wrapper signature that recovers to its
    declared signer, in another letter case. *)
Definition countersigned_stamp : Stamp :=
  spread_with_signatures failed_stamp [wrapper "0xaaa1" "0xAAA1"].

(** A stamp whose point is out of range on both axes. *)
Definition off_globe_stamp : Stamp :=
  {| lpVersion := "0.2";
     locationType := "geojson-point";
     location := LocGeo 200%Q (-91)%Q;
     srs := "EPSG:4326";
     temporalFootprint :=
       Some {| tw_start := 1768478400%Q; tw_end := 1768478410%Q |};
     plugin := "witnesschain";
     pluginVersion := "0.1.0";
     signals := failed_signals;
     signatures := None |}.

(** The stamp of the successful fixture, as the builder makes it. *)
Definition fixture_stamp : Stamp :=
  {| lpVersion := "0.2";
     locationType := "geojson-point";
     location := LocGeo (-73.9857)%Q 40.7484%Q;
     srs := "EPSG:4326";
     temporalFootprint :=
       Some {| tw_start := 1768478400%Q; tw_end := 1768478410%Q |};
     plugin := "witnesschain";
     pluginVersion := "0.1.0";
     signals :=
       {| challengeResult := None;
          challengeId := Some "challenge-001";
          signal_challenger := Some TEST_CHALLENGER_ADDRESS;
          challengerId := Some "watchtower-nyc-01";
          challengerClaims :=
            Some {| latitude := 40.7128%Q; longitude := (-74.006)%Q;
                    radius := 50%Q |};
          proverClaims :=
            Some {| latitude := 40.7484%Q; longitude := (-73.9857)%Q;
                    radius := 100%Q |};
          challengeSucceeded := Some true;
          pingDelayMicroseconds := Some 15000%Q;
          consolidatedResult :=
            Some (record_of_consolidated (consolidated_result challenge_fixture));
          knowLocUncertaintyKm := Some 5.2%Q |};
     signatures := None |}.

(** The near claim moved to London with a radius of 100 m, its time
    window kept. *)
Definition distantClaim : LocationClaim :=
  {| claim_location := LocGeo (-0.1276)%Q 51.5074%Q;
     claim_radius := 100%Q;
     claim_time := {| tw_start := 1768478100%Q; tw_end := 1768478700%Q |} |}.

(** ** A [location] of [null]

    The declared types give the [location] member of a stamp and of a
    claim no [null], and [Location] has none.  A JavaScript caller can
    pass one all the same (a stamp read with [JSON.parse], say), and the
    two functions that read the member then take a path of their own.
    [Received A] is an argument as such a caller passes it: a value of
    the declared type, or one whose [location] holds [null]. *)

Inductive Received (A : Type) : Type :=
| Declared (a : A)
| NullLocation (a : A).
Arguments Declared {A} a.
Arguments NullLocation {A} a.

(** What the [location] member holds at run time. *)
Inductive RuntimeLocation : Type :=
| RtNull
| RtDeclared (loc : Location).

Definition runtime_location {A} (location_of : A -> Location) (x : Received A)
  : RuntimeLocation :=
  match x with
  | Declared a => RtDeclared (location_of a)
  | NullLocation _ => RtNull
  end.

Definition IN_NULL : string :=
  "TypeError: Cannot use 'in' operator to search for 'coordinates' in null".

(** [typeof loc === 'object' && 'coordinates' in loc].  [typeof null] is
    ['object'], and [in] throws a [TypeError] when its right operand is
    not an object; [undefined] and a string stop at the [typeof] test. *)
Definition has_coordinates (loc : RuntimeLocation) : Exc bool :=
  match loc with
  | RtNull => Throw IN_NULL
  | RtDeclared (LocGeo _ _) => Ok true
  | RtDeclared _ => Ok false
  end.

(** [{ ...stamp, location }] *)
Definition with_location (l : Location) (stamp : Stamp) : Stamp :=
  {| lpVersion := lpVersion stamp;
     locationType := locationType stamp;
     location := l;
     srs := srs stamp;
     temporalFootprint := temporalFootprint stamp;
     plugin := plugin stamp;
     pluginVersion := pluginVersion stamp;
     signals := signals stamp;
     signatures := signatures stamp |}.

(** The received stamp as the statements before line 116 of the
    verifier read it.  They read the location through [!stamp.location]
    only, which is [true] on [null] as on [undefined], and through
    [JSON.stringify] in the wrapper loop, whose outcome no caller sees
    when the location is [null]: the call throws after the loop. *)
Definition received_stamp (x : Received Stamp) : Stamp :=
  match x with
  | Declared stamp => stamp
  | NullLocation stamp => with_location LocAbsent stamp
  end.

Definition members {A} (x : Received A) : A :=
  match x with Declared a | NullLocation a => a end.

Section ReceivedArguments.
Context `{host : Host}.

(** verify.ts on a received stamp: lines 30-111 as embedded above, the
    test of line 117 on what the member holds, then lines 116-143. *)
Definition verify_body_on (x : Received Stamp) : Verifier unit :=
  check_structure (received_stamp x) >>
  check_challenge_signature (received_stamp x) >>
  check_stamp_signatures (received_stamp x) >>
  (do* _ := call (has_coordinates (runtime_location location x)) in
   check_signal_consistency (received_stamp x)).

Definition verifyWitnessChainStamp_on (x : Received Stamp)
  : Exc StampVerificationResult :=
  match verify_body_on x initial_state with
  | (Ok _, st) =>
    Ok {| valid := st_signaturesValid st && st_structureValid st
                   && st_signalsConsistent st;
          signaturesValid := st_signaturesValid st;
          structureValid := st_structureValid st;
          signalsConsistent := st_signalsConsistent st;
          details := details_of (st_details st) |}
  | (Throw e, _) => Throw e
  end.

(** evaluate.ts on a received stamp and a received claim: the test of
    line 65 on the stamp's location, the return of lines 70-76 before
    the claim's location is read, the test of line 83 on the claim's,
    and the function as embedded above when neither test throws. *)
Definition evaluateWitnessChainStamp_on (stamp : Received Stamp)
  (claim : Received LocationClaim) : Exc CredibilityVector :=
  match has_coordinates (runtime_location location stamp) with
  | Throw e => Throw e
  | Ok false => Ok (error_vector "Cannot extract coordinates from stamp location")
  | Ok true =>
    match has_coordinates (runtime_location claim_location claim) with
    | Throw e => Throw e
    | Ok _ => evaluateWitnessChainStamp (members stamp) (members claim)
    end
  end.

End ReceivedArguments.

(** ** Dates

    [new Date(s).getTime()] is a function of the string only when the
    string names its offset from UTC.  In the date-time string format of
    ECMAScript, [YYYY-MM-DDTHH:mm:ss.sssZ], a date-time without offset is
    a local time, read in the time zone of the process, and a date alone
    is UTC; a string that is no date gives [NaN].  [iso_getTime local s]
    reads that format in a process whose local time is [local] minutes
    ahead of UTC; [None] is [NaN]. *)

Definition digit_of (c : ascii) : option Z :=
  let n := nat_of_ascii c in
  if (48 <=? n)%nat && (n <=? 57)%nat then Some (Z.of_nat n - 48)%Z else None.

(** [n] decimal digits at the head of [s]: their value after [acc], and
    the rest of [s]. *)
Fixpoint read_digits (n : nat) (acc : Z) (s : string) : option (Z * string) :=
  match n, s with
  | O, _ => Some (acc, s)
  | S n', String c rest =>
    match digit_of c with
    | Some d => read_digits n' (acc * 10 + d)%Z rest
    | None => None
    end
  | S _, EmptyString => None
  end.

Definition read_char (c : ascii) (s : string) : option string :=
  match s with
  | String c' rest => if Ascii.eqb c c' then Some rest else None
  | EmptyString => None
  end.

Definition is_leap (y : Z) : bool :=
  ((y mod 4 =? 0) && negb (y mod 100 =? 0) || (y mod 400 =? 0))%Z.

Definition days_in_month (y m : Z) : Z :=
  if (m =? 2)%Z then (if is_leap y then 29 else 28)%Z
  else if ((m =? 4) || (m =? 6) || (m =? 9) || (m =? 11))%Z then 30%Z
  else 31%Z.

(** Days from 1970-01-01 to a date of the proleptic Gregorian calendar,
    counting years from March. *)
Definition days_from_civil (y m d : Z) : Z :=
  let y' := (if m <=? 2 then y - 1 else y)%Z in
  let era := (y' / 400)%Z in
  let yoe := (y' - era * 400)%Z in
  let mp := (if m <=? 2 then m + 9 else m - 3)%Z in
  let doy := ((153 * mp + 2) / 5 + d - 1)%Z in
  let doe := (yoe * 365 + yoe / 4 - yoe / 100 + doy)%Z in
  (era * 146097 + doe - 719468)%Z.

(** [YYYY-MM-DD]: milliseconds from the epoch to the start of the day. *)
Definition read_date (s : string) : option (Z * string) :=
  '(y, s) ← read_digits 4 0 s;
  s ← read_char "-" s;
  '(m, s) ← read_digits 2 0 s;
  s ← read_char "-" s;
  '(d, s) ← read_digits 2 0 s;
  if ((1 <=? m) && (m <=? 12) && (1 <=? d) && (d <=? days_in_month y m))%Z
  then Some (days_from_civil y m d * 86400000, s)%Z
  else None.

Definition read_fraction (s : string) : option (Z * string) :=
  match read_char "." s with
  | Some s => read_digits 3 0 s
  | None => Some (0%Z, s)
  end.

(** [HH:mm:ss] or [HH:mm:ss.sss]: milliseconds into the day. *)
Definition read_time (s : string) : option (Z * string) :=
  '(h, s) ← read_digits 2 0 s;
  s ← read_char ":" s;
  '(mi, s) ← read_digits 2 0 s;
  s ← read_char ":" s;
  '(sec, s) ← read_digits 2 0 s;
  '(ms, s) ← read_fraction s;
  if ((h <=? 23) && (mi <=? 59) && (sec <=? 59))%Z
  then Some (h * 3600000 + mi * 60000 + sec * 1000 + ms, s)%Z
  else None.

(** The offset from UTC in minutes: [Z], [+HH:mm], [-HH:mm], or the
    local one when the string names none. *)
Definition read_offset (local : Z) (s : string) : option Z :=
  match s with
  | EmptyString => Some local
  | String "Z" EmptyString => Some 0%Z
  | String sign s =>
    '(h, s) ← read_digits 2 0 s;
    s ← read_char ":" s;
    '(mi, s) ← read_digits 2 0 s;
    if bool_decide (s = "") && (h <=? 23)%Z && (mi <=? 59)%Z then
      if Ascii.eqb sign "+" then Some (h * 60 + mi)%Z
      else if Ascii.eqb sign "-" then Some (- (h * 60 + mi))%Z
      else None
    else None
  end.

Definition iso_getTime (local : Z) (s : string) : option Q :=
  '(day, s) ← read_date s;
  match s with
  | EmptyString => Some (inject_Z day)
  | String "T" s =>
    '(time, s) ← read_time s;
    offset ← read_offset local s;
    Some (inject_Z (day + time - offset * 60000))
  | _ => None
  end.

(** A date-time that names no offset: the strings that [iso_getTime]
    reads as a local time. *)
Definition reads_local_time (s : string) : bool :=
  match read_date s with
  | Some (_, String "T" rest) =>
    match read_time rest with
    | Some (_, EmptyString) => true
    | _ => false
    end
  | _ => false
  end.

(** The host [base] with [getTime] for its [new Date(s).getTime()].
    Where [getTime s] is [NaN] the rational of the host is a placeholder:
    the properties stated on such a host assume that the string is a
    date. *)
Definition with_Date (getTime : string -> option Q) (base : Host) : Host :=
  {| verifyMessage := @verifyMessage base;
     JSON_stringify := @JSON_stringify base;
     Date_getTime := fun s => default 0%Q (getTime s);
     Math_PI := @Math_PI base;
     Math_sin := @Math_sin base;
     Math_cos := @Math_cos base;
     Math_asin := @Math_asin base;
     Math_sqrt := @Math_sqrt base |}.

(** [base] in a process whose local time is [local] minutes ahead of
    UTC. *)
Definition in_zone (local : Z) (base : Host) : Host :=
  with_Date (iso_getTime local) base.

(** The challenge fixture with a start time that names no offset. *)
Definition zoneless_fixture : WitnessChainChallengeResult :=
  {| id := "challenge-001";
     challenge_start_time := "2026-01-15T12:00:00";
     challenger := TEST_CHALLENGER_ADDRESS;
     challenger_id := "watchtower-nyc-01";
     challenger_claims :=
       {| latitude := 40.7128%Q; longitude := (-74.006)%Q; radius := 50%Q |};
     claims :=
       {| latitude := 40.7484%Q; longitude := (-73.9857)%Q; radius := 100%Q |};
     result := {| challenge_succeeded := true; ping_delay := 15000%Q |};
     message := "challenge-001 payload";
     signature := TEST_CHALLENGER_ADDRESS;
     consolidated_result :=
       {| KnowLoc := true; KnowLocUncertainty := 5.2%Q;
          ipapi_co := Some true; ipregistry := Some true; maxmind := Some false;
          verified := true |} |}.

(** * Properties *)

Local Open Scope list_scope.
Local Open Scope Q_scope.

(** ** Comparisons on rationals *)

Lemma Qltb_lt (x y : Q) : Qltb x y = true <-> x < y.
Proof.
  unfold Qltb. rewrite negb_true_iff.
  destruct (Qle_bool y x) eqn:E.
  - apply Qle_bool_iff in E. split; [discriminate | intros H; lra].
  - split; [intros _ | reflexivity].
    destruct (Qlt_le_dec x y) as [H|H]; [exact H |].
    apply Qle_bool_iff in H. congruence.
Qed.

Lemma Qltb_ge (x y : Q) : Qltb x y = false <-> y <= x.
Proof.
  unfold Qltb. rewrite negb_false_iff. apply Qle_bool_iff.
Qed.

Lemma Qle_bool_false (x y : Q) : Qle_bool x y = false <-> y < x.
Proof.
  rewrite <- Qltb_lt. unfold Qltb. rewrite negb_true_iff. reflexivity.
Qed.

Lemma Qdiv_bounds (p q : Q) : 0 <= p -> p <= q -> 0 < q -> 0 <= p / q <= 1.
Proof.
  intros Hp Hpq Hq. split.
  - apply Qle_shift_div_l; lra.
  - apply Qle_shift_div_r; lra.
Qed.

(** ** The temporal component *)

Section Temporal.
Variables a b : TimeWindow.
Local Abbreviation overlapStart := (Qmax (tw_start a) (tw_start b)).
Local Abbreviation overlapEnd := (Qmin (tw_end a) (tw_end b)).
Local Abbreviation shorter := (Qmin (tw_end a - tw_start a) (tw_end b - tw_start b)).

Lemma temporalOverlap_no_overlap :
  overlapEnd <= overlapStart -> temporalOverlap a b == 0.
Proof.
  intros H. unfold temporalOverlap.
  apply Qle_bool_iff in H. rewrite H. reflexivity.
Qed.

Lemma overlap_le_shorter : overlapEnd - overlapStart <= shorter.
Proof.
  destruct (Q.max_spec (tw_start a) (tw_start b)) as [[? ->]|[? ->]];
  destruct (Q.min_spec (tw_end a) (tw_end b)) as [[? ->]|[? ->]];
  destruct (Q.min_spec (tw_end a - tw_start a) (tw_end b - tw_start b))
    as [[? ->]|[? ->]]; lra.
Qed.

Lemma temporalOverlap_ratio :
  overlapStart < overlapEnd -> 0 < shorter ->
  temporalOverlap a b == (overlapEnd - overlapStart) / shorter.
Proof.
  intros H1 H2. unfold temporalOverlap.
  apply Qle_bool_false in H1. rewrite H1.
  apply Qltb_lt in H2. rewrite H2. reflexivity.
Qed.

Lemma temporalOverlap_shorter_zero :
  shorter == 0 -> temporalOverlap a b == 0.
Proof.
  intros H. unfold temporalOverlap.
  destruct (Qle_bool overlapEnd overlapStart); [reflexivity |].
  destruct (Qltb 0 shorter) eqn:E; [| reflexivity].
  apply Qltb_lt in E. lra.
Qed.

Lemma temporalOverlap_range : 0 <= temporalOverlap a b <= 1.
Proof.
  unfold temporalOverlap.
  destruct (Qle_bool overlapEnd overlapStart) eqn:E1; [lra |].
  apply Qle_bool_false in E1.
  destruct (Qltb 0 shorter) eqn:E2; [| lra].
  apply Qltb_lt in E2.
  apply Qdiv_bounds; [lra | apply overlap_le_shorter | exact E2].
Qed.

End Temporal.

(** C7. The temporal component of the evaluator is the overlap ratio
    [(min of the ends - max of the starts) / min(stampDuration, claimDuration)]
    when the windows overlap and the shorter duration is positive; it is 0
    when [min(ends) <= max(starts)] and when the shorter duration is 0;
    hence it lies in [[0,1]], is 0 for disjoint windows and is 1 for
    identical windows of positive duration. *)
Theorem temporalOverlap_spec (a b : TimeWindow) :
  let overlapStart := Qmax (tw_start a) (tw_start b) in
  let overlapEnd := Qmin (tw_end a) (tw_end b) in
  let shorter := Qmin (tw_end a - tw_start a) (tw_end b - tw_start b) in
  (overlapStart < overlapEnd -> 0 < shorter ->
     temporalOverlap a b == (overlapEnd - overlapStart) / shorter) /\
  (overlapEnd <= overlapStart -> temporalOverlap a b == 0) /\
  (shorter == 0 -> temporalOverlap a b == 0) /\
  0 <= temporalOverlap a b <= 1 /\
  (tw_end a <= tw_start b \/ tw_end b <= tw_start a ->
     temporalOverlap a b == 0) /\
  (tw_start a == tw_start b -> tw_end a == tw_end b ->
     tw_start a < tw_end a -> temporalOverlap a b == 1).
Proof.
  intros overlapStart overlapEnd shorter.
  split; [apply temporalOverlap_ratio |].
  split; [apply temporalOverlap_no_overlap |].
  split; [apply temporalOverlap_shorter_zero |].
  split; [apply temporalOverlap_range |].
  split.
  - intros Hdisj. apply temporalOverlap_no_overlap.
    destruct (Q.max_spec (tw_start a) (tw_start b)) as [[? ->]|[? ->]];
    destruct (Q.min_spec (tw_end a) (tw_end b)) as [[? ->]|[? ->]];
    destruct Hdisj; lra.
  - intros Hs He Hpos.
    assert (H1 : overlapStart == tw_start a).
    { unfold overlapStart.
      destruct (Q.max_spec (tw_start a) (tw_start b)) as [[? ->]|[? ->]]; lra. }
    assert (H2 : overlapEnd == tw_end a).
    { unfold overlapEnd.
      destruct (Q.min_spec (tw_end a) (tw_end b)) as [[? ->]|[? ->]]; lra. }
    assert (H3 : shorter == tw_end a - tw_start a).
    { unfold shorter.
      destruct (Q.min_spec (tw_end a - tw_start a) (tw_end b - tw_start b))
        as [[? ->]|[? ->]]; lra. }
    rewrite temporalOverlap_ratio; fold overlapStart overlapEnd shorter; try lra.
    rewrite H1, H2, H3. field. lra.
Qed.

(** ** The verifier's phases compute what [extend] says *)

Section PhaseRuns.
Context `{host : Host}.

Lemma extend_id st : extend st true true true [] = st.
Proof.
  destruct st. unfold extend. cbn.
  rewrite !andb_true_r, app_nil_r. reflexivity.
Qed.

Lemma extend_extend st a b c ws a' b' c' ws' :
  extend (extend st a b c ws) a' b' c' ws'
  = extend st (a && a') (b && b') (c && c') (ws ++ ws').
Proof.
  unfold extend. cbn. rewrite !andb_assoc, app_assoc. reflexivity.
Qed.

Lemma runs_ret : runs (vret tt) true true true [].
Proof. intros st. rewrite extend_id. reflexivity. Qed.

Lemma runs_seq m1 m2 a1 b1 c1 ws1 a2 b2 c2 ws2 :
  runs m1 a1 b1 c1 ws1 -> runs m2 a2 b2 c2 ws2 ->
  runs (m1 >> m2) (a1 && a2) (b1 && b2) (c1 && c2) (ws1 ++ ws2).
Proof.
  intros H1 H2 st. unfold vbind. rewrite H1, H2. apply f_equal, extend_extend.
Qed.

Lemma runs_set_detail k v : runs (set_detail k v) true true true [(k, v)].
Proof.
  intros st. unfold set_detail, extend. cbn. rewrite !andb_true_r. reflexivity.
Qed.

Lemma runs_set_structureValid : runs (set_structureValid false) true false true [].
Proof.
  intros st. unfold set_structureValid, extend. cbn.
  rewrite !andb_true_r, andb_false_r, app_nil_r. reflexivity.
Qed.

Lemma runs_set_signaturesValid : runs (set_signaturesValid false) false true true [].
Proof.
  intros st. unfold set_signaturesValid, extend. cbn.
  rewrite !andb_true_r, andb_false_r, app_nil_r. reflexivity.
Qed.

Lemma runs_set_signalsConsistent : runs (set_signalsConsistent false) true true false [].
Proof.
  intros st. unfold set_signalsConsistent, extend. cbn.
  rewrite !andb_true_r, andb_false_r, app_nil_r. reflexivity.
Qed.

Lemma runs_eq m a b c ws a' b' c' ws' :
  runs m a b c ws -> a = a' -> b = b' -> c = c' -> ws = ws' ->
  runs m a' b' c' ws'.
Proof. intros H -> -> -> ->. exact H. Qed.

Ltac step_runs :=
  repeat first
    [ apply runs_seq
    | apply runs_set_detail
    | apply runs_set_structureValid
    | apply runs_set_signaturesValid
    | apply runs_set_signalsConsistent
    | apply runs_ret ].

Ltac solve_runs := eapply runs_eq; [step_runs | reflexivity ..].

Lemma check_structure_runs stamp :
  runs (check_structure stamp) true (structure_ok stamp) true
       (structure_writes stamp).
Proof.
  unfold check_structure, structure_ok, structure_writes, missing_challenge_data.
  destruct (bool_decide (lpVersion stamp = "0.2"));
  destruct (bool_decide (plugin stamp = "witnesschain"));
  destruct (falsy_location (location stamp) || is_absent (temporalFootprint stamp));
  destruct (is_absent (challengeResult (signals stamp)));
  destruct (falsy_string (challengeId (signals stamp))
            || is_absent (challengeSucceeded (signals stamp)));
  cbn [when negb andb app]; solve_runs.
Qed.

Lemma runs_try_catch_ok {A} (r : Exc A) (k : A -> Verifier unit)
  (handler : string -> Verifier unit) (v : A) a b c ws :
  r = Ok v -> runs (k v) a b c ws ->
  runs (try_catch (vbind (call r) k) handler) a b c ws.
Proof.
  intros -> H st. unfold try_catch, vbind, call. rewrite H. reflexivity.
Qed.

Lemma runs_try_catch_throw {A} (r : Exc A) (k : A -> Verifier unit)
  (handler : string -> Verifier unit) (e : string) a b c ws :
  r = Throw e -> runs (handler e) a b c ws ->
  runs (try_catch (vbind (call r) k) handler) a b c ws.
Proof.
  intros -> H st. unfold try_catch, vbind, call. apply H.
Qed.

Lemma check_challenge_signature_runs stamp :
  runs (check_challenge_signature stamp) (challenge_signature_ok stamp) true true
       (challenge_signature_writes stamp).
Proof.
  unfold check_challenge_signature, challenge_signature_ok,
    challenge_signature_writes, challenge_recovery, recovery.
  destruct (challengeResult (signals stamp)) as [c|]; [| apply runs_ret].
  destruct (verifyMessage (message c) (signature c)) as [recovered|e] eqn:E.
  - eapply runs_try_catch_ok; [reflexivity |].
    destruct (bool_decide (toLowerCase recovered = toLowerCase (challenger c)));
      cbn [negb recovery_ok]; solve_runs.
  - eapply runs_try_catch_throw; [reflexivity |].
    cbn [recovery_ok]. solve_runs.
Qed.

Lemma check_one_signature_runs stamp sig :
  runs (check_one_signature stamp sig)
       (recovery_ok (wrapper_recovery stamp sig)) true true
       (wrapper_writes stamp sig).
Proof.
  unfold check_one_signature, wrapper_writes, wrapper_recovery, recovery.
  destruct (verifyMessage (JSON_stringify (without_signatures stamp)) (sig_value sig))
    as [recovered|e] eqn:E.
  - eapply runs_try_catch_ok; [reflexivity |].
    destruct (bool_decide (toLowerCase recovered
                           = toLowerCase (subject_value (sig_signer sig))));
      cbn [negb recovery_ok when]; solve_runs.
  - eapply runs_try_catch_throw; [reflexivity |].
    cbn [recovery_ok]. solve_runs.
Qed.

Lemma for_of_signatures_runs stamp sigs :
  runs (for_of sigs (check_one_signature stamp))
       (wrappers_ok stamp sigs) true true (wrappers_writes stamp sigs).
Proof.
  induction sigs as [|sig rest IH].
  - apply runs_ret.
  - cbn [for_of]. eapply runs_eq.
    + apply runs_seq; [apply check_one_signature_runs | apply IH].
    + reflexivity.
    + reflexivity.
    + reflexivity.
    + reflexivity.
Qed.

Lemma check_stamp_signatures_runs stamp :
  runs (check_stamp_signatures stamp) (stamp_signatures_ok stamp) true true
       (stamp_signatures_writes stamp).
Proof.
  unfold check_stamp_signatures, stamp_signatures_ok, stamp_signatures_writes.
  destruct (signatures stamp) as [[|sig rest]|];
    try apply for_of_signatures_runs;
    destruct (is_absent (challengeResult (signals stamp))); cbn [when negb];
    solve_runs.
Qed.

Lemma check_signal_consistency_runs stamp :
  runs (check_signal_consistency stamp) true true (signals_ok stamp)
       (signal_writes stamp).
Proof.
  unfold check_signal_consistency, signals_ok, signal_writes, consolidated_ok,
    coordinates_ok, coordinates_writes, longitude_ok, latitude_ok.
  destruct (location stamp) as [|s|lon lat|];
  try (destruct (Qltb lon (-180) || Qltb 180 lon);
       destruct (Qltb lat (-90) || Qltb 90 lat));
  destruct (bool_decide (challengeSucceeded (signals stamp) = Some false));
  destruct (consolidatedResult (signals stamp)) as [consolidated|];
  try destruct (is_boolean (prop consolidated "KnowLoc"));
  cbn [when negb andb app]; solve_runs.
Qed.

Lemma verify_body_run stamp :
  verify_body stamp initial_state
  = (Ok tt,
     {| st_signaturesValid := challenge_signature_ok stamp && stamp_signatures_ok stamp;
        st_structureValid := structure_ok stamp;
        st_signalsConsistent := signals_ok stamp;
        st_details := verify_writes stamp |}).
Proof.
  assert (H : runs (verify_body stamp)
                (challenge_signature_ok stamp && stamp_signatures_ok stamp)
                (structure_ok stamp) (signals_ok stamp) (verify_writes stamp)).
  { unfold verify_body, verify_writes. eapply runs_eq.
    - apply runs_seq; [apply check_structure_runs |].
      apply runs_seq; [apply check_challenge_signature_runs |].
      apply runs_seq; [apply check_stamp_signatures_runs |].
      apply check_signal_consistency_runs.
    - cbn. rewrite andb_true_r. reflexivity.
    - cbn. rewrite !andb_true_r. reflexivity.
    - reflexivity.
    - reflexivity. }
  rewrite H. reflexivity.
Qed.

(** The verifier returns, and what it returns. *)
Lemma verifyWitnessChainStamp_run stamp :
  verifyWitnessChainStamp stamp
  = Ok {| valid := challenge_signature_ok stamp && stamp_signatures_ok stamp
                   && structure_ok stamp && signals_ok stamp;
          signaturesValid := challenge_signature_ok stamp && stamp_signatures_ok stamp;
          structureValid := structure_ok stamp;
          signalsConsistent := signals_ok stamp;
          details := details_of (verify_writes stamp) |}.
Proof.
  unfold verifyWitnessChainStamp. rewrite verify_body_run. reflexivity.
Qed.

End PhaseRuns.

(** ** The [details] object as the replay of its assignments *)

Lemma details_of_app pre post :
  details_of (pre ++ post) = foldl assign (details_of pre) post.
Proof. unfold details_of. apply foldl_app. Qed.

Lemma foldl_assign_notin post : forall (m : gmap string jsval) k,
  k ∉ keys post -> foldl assign m post !! k = m !! k.
Proof.
  induction post as [|[k' v'] post IH]; intros m k Hk; [reflexivity |].
  cbn [foldl]. unfold keys in *. rewrite fmap_cons in Hk.
  apply not_elem_of_cons in Hk as [Hne Hk].
  rewrite IH by exact Hk. unfold assign. cbn in *.
  apply lookup_insert_ne. congruence.
Qed.

Lemma foldl_assign_is_Some post : forall (m : gmap string jsval) k,
  is_Some (m !! k) -> is_Some (foldl assign m post !! k).
Proof.
  induction post as [|[k' v'] post IH]; intros m k Hk; [exact Hk |].
  cbn [foldl]. apply IH. unfold assign. cbn.
  destruct (decide (k' = k)) as [->|Hne].
  - rewrite lookup_insert_eq. eauto.
  - rewrite lookup_insert_ne; assumption.
Qed.

Lemma details_of_None l k : k ∉ keys l -> details_of l !! k = None.
Proof.
  intros H. unfold details_of. rewrite foldl_assign_notin by exact H.
  apply lookup_empty.
Qed.

Lemma details_of_Some_key l k v : details_of l !! k = Some v -> k ∈ keys l.
Proof.
  intros H. destruct (decide (k ∈ keys l)) as [Hin|Hout]; [exact Hin |].
  rewrite details_of_None in H by exact Hout. discriminate.
Qed.

Lemma details_of_last pre k v post :
  k ∉ keys post -> details_of (pre ++ (k, v) :: post) !! k = Some v.
Proof.
  intros H. rewrite details_of_app. cbn [foldl].
  rewrite foldl_assign_notin by exact H.
  unfold assign. cbn. apply lookup_insert_eq.
Qed.

Lemma keys_app l1 l2 : keys (l1 ++ l2) = keys l1 ++ keys l2.
Proof. unfold keys. apply fmap_app. Qed.

(** ** Which keys each phase writes *)

Ltac sublist_keys :=
  repeat first [apply sublist_nil | apply sublist_skip | apply sublist_cons].

Ltac absent_key :=
  let H := fresh in
  intros H; repeat (apply elem_of_cons in H as [H|H]; [discriminate H |]);
  apply elem_of_nil in H; exact H.

Section Keys.
Context `{host : Host}.

Lemma structure_writes_keys stamp :
  keys (structure_writes stamp) `sublist_of` structure_keys.
Proof.
  unfold structure_writes.
  destruct (bool_decide (lpVersion stamp = "0.2"));
  destruct (bool_decide (plugin stamp = "witnesschain"));
  destruct (falsy_location (location stamp) || is_absent (temporalFootprint stamp));
  destruct (missing_challenge_data stamp); cbn; sublist_keys.
Qed.

Lemma challenge_signature_writes_keys stamp :
  keys (challenge_signature_writes stamp) `sublist_of` challenge_keys.
Proof.
  unfold challenge_signature_writes.
  destruct (challengeResult (signals stamp)) as [c|]; [| apply sublist_nil_l].
  destruct (challenge_recovery c); cbn; sublist_keys.
Qed.

Lemma signal_writes_keys stamp :
  keys (signal_writes stamp) `sublist_of` signal_keys.
Proof.
  unfold signal_writes, coordinates_writes.
  destruct (location stamp) as [|s|lon lat|];
  try (destruct (longitude_ok lon); destruct (latitude_ok lat));
  destruct (bool_decide (challengeSucceeded (signals stamp) = Some false));
  destruct (consolidated_ok stamp); cbn; sublist_keys.
Qed.

Lemma wrapper_writes_keys stamp sig k :
  k ∈ keys (wrapper_writes stamp sig) -> k ∈ loop_keys.
Proof.
  unfold wrapper_writes.
  destruct (wrapper_recovery stamp sig); cbn; intros H.
  - apply elem_of_nil in H. contradiction.
  - apply list_elem_of_singleton in H as ->. left.
  - apply list_elem_of_singleton in H as ->. right. left.
Qed.

Lemma wrappers_writes_cons stamp sig sigs :
  wrappers_writes stamp (sig :: sigs)
  = wrapper_writes stamp sig ++ wrappers_writes stamp sigs.
Proof. reflexivity. Qed.

Lemma wrappers_writes_app stamp l1 l2 :
  wrappers_writes stamp (l1 ++ l2)
  = wrappers_writes stamp l1 ++ wrappers_writes stamp l2.
Proof. unfold wrappers_writes. rewrite map_app. apply concat_app. Qed.

Lemma wrappers_writes_keys stamp sigs k :
  k ∈ keys (wrappers_writes stamp sigs) -> k ∈ loop_keys.
Proof.
  induction sigs as [|sig rest IH]; intros H.
  - apply elem_of_nil in H. contradiction.
  - rewrite wrappers_writes_cons, keys_app in H.
    apply elem_of_app in H as [H|H]; [eapply wrapper_writes_keys, H | apply IH, H].
Qed.

Lemma filter_outside_loop_nil l :
  (forall k, k ∈ l -> k ∈ loop_keys) -> filter outside_loop l = [].
Proof.
  intros H. induction l as [|k l IH]; [reflexivity |].
  rewrite filter_cons. destruct (decide (outside_loop k)) as [Hk|Hk].
  - exfalso. apply Hk, H. left.
  - apply IH. intros k' Hk'. apply H. right. exact Hk'.
Qed.

Lemma stamp_signatures_writes_static stamp :
  filter outside_loop (keys (stamp_signatures_writes stamp))
    `sublist_of` ["noSignatures"].
Proof.
  unfold stamp_signatures_writes.
  destruct (signatures stamp) as [[|sig rest]|].
  - destruct (is_absent (challengeResult (signals stamp)));
      [apply (sublist_filter outside_loop ["noSignatures"]) | apply sublist_nil_l].
  - rewrite filter_outside_loop_nil; [apply sublist_nil_l |].
    apply wrappers_writes_keys.
  - destruct (is_absent (challengeResult (signals stamp)));
      [apply (sublist_filter outside_loop ["noSignatures"]) | apply sublist_nil_l].
Qed.

Lemma filter_sublist_of (l K : list string) :
  l `sublist_of` K -> filter outside_loop l `sublist_of` K.
Proof. intros H. etransitivity; [apply sublist_filter | exact H]. Qed.

(** Outside the loop over the wrapper signatures, every key is assigned
    at most once in a call. *)
Lemma static_assignments_NoDup stamp :
  NoDup (filter outside_loop (keys (verify_writes stamp))).
Proof.
  apply (sublist_NoDup _ static_keys).
  - apply (bool_decide_unpack _). vm_compute. reflexivity.
  - unfold verify_writes, static_keys. rewrite !keys_app, !filter_app.
    repeat apply sublist_app.
    + apply filter_sublist_of, structure_writes_keys.
    + apply filter_sublist_of, challenge_signature_writes_keys.
    + apply stamp_signatures_writes_static.
    + apply filter_sublist_of, signal_writes_keys.
Qed.

End Keys.


Section VerifierFacts.
Context `{host : Host}.


Lemma recovery_mismatch msg sigv declared recovered :
  verifyMessage msg sigv = Ok recovered ->
  toLowerCase recovered <> toLowerCase declared ->
  recovery msg sigv declared = Mismatch recovered.
Proof.
  intros H Hne. unfold recovery. rewrite H.
  rewrite bool_decide_eq_false_2 by exact Hne. reflexivity.
Qed.




Lemma signal_key_absent stamp k :
  k ∉ signal_keys -> k ∉ keys (signal_writes stamp).
Proof.
  intros H Hin. apply H. eapply elem_of_sublist; [exact Hin |].
  apply signal_writes_keys.
Qed.

Lemma structure_key_absent stamp k :
  k ∉ structure_keys -> k ∉ keys (structure_writes stamp).
Proof.
  intros H Hin. apply H. eapply elem_of_sublist; [exact Hin |].
  apply structure_writes_keys.
Qed.

Lemma challenge_key_absent stamp k :
  k ∉ challenge_keys -> k ∉ keys (challenge_signature_writes stamp).
Proof.
  intros H Hin. apply H. eapply elem_of_sublist; [exact Hin |].
  apply challenge_signature_writes_keys.
Qed.

Lemma stamp_signatures_key_absent stamp k :
  k ∉ "noSignatures" :: loop_keys -> k ∉ keys (stamp_signatures_writes stamp).
Proof.
  intros H Hin. apply H. unfold stamp_signatures_writes in Hin.
  destruct (signatures stamp) as [[|sig rest]|].
  - destruct (is_absent (challengeResult (signals stamp)));
      [apply list_elem_of_singleton in Hin as ->; left
      | apply elem_of_nil in Hin; contradiction].
  - right. eapply wrappers_writes_keys, Hin.
  - destruct (is_absent (challengeResult (signals stamp)));
      [apply list_elem_of_singleton in Hin as ->; left
      | apply elem_of_nil in Hin; contradiction].
Qed.

Lemma not_elem_of_app_keys (l1 l2 : list (string * jsval)) k :
  k ∉ keys l1 -> k ∉ keys l2 -> k ∉ keys (l1 ++ l2).
Proof.
  intros H1 H2. rewrite keys_app. intros [H|H]%elem_of_app; tauto.
Qed.


End VerifierFacts.

(** ** The verifier *)

Section VerifierTheorems.
Context `{host : Host}.

(** A phase that returns hands the state it leaves to what follows. *)
Lemma runs_then (m : Verifier unit) (k : Verifier unit) a b c ws st :
  runs m a b c ws -> (m >> k) st = k (extend st a b c ws).
Proof. intros H. unfold vbind. rewrite H. reflexivity. Qed.


(** With a [location] of [null] the verifier throws, whatever else the
    stamp holds: the structure check and the two signature checks
    return, and the test of line 117 throws outside every [try]. *)
Lemma verifyWitnessChainStamp_on_null (stamp : Stamp) :
  verifyWitnessChainStamp_on (NullLocation stamp) = Throw IN_NULL.
Proof.
  unfold verifyWitnessChainStamp_on, verify_body_on.
  cbn [runtime_location has_coordinates].
  rewrite (runs_then _ _ _ _ _ _ _ (check_structure_runs _)).
  rewrite (runs_then _ _ _ _ _ _ _ (check_challenge_signature_runs _)).
  rewrite (runs_then _ _ _ _ _ _ _ (check_stamp_signatures_runs _)).
  reflexivity.
Qed.


(** C5. A stamp whose signals carry no embedded challenge evidence and
    whose wrapper-signature sequence is empty or absent is reported with
    [signaturesValid = false] and the diagnostic [noSignatures]; it is
    never accepted. *)
Theorem nothing_to_verify_is_invalid (stamp : Stamp) :
  challengeResult (signals stamp) = None ->
  signatures stamp = None \/ signatures stamp = Some [] ->
  exists r,
    verifyWitnessChainStamp stamp = Ok r
    /\ signaturesValid r = false
    /\ valid r = false
    /\ details r !! "noSignatures" = Some (VBool true).
Proof.
  intros Hc Hs. eexists. split; [apply verifyWitnessChainStamp_run |]. cbn.
  assert (Hok : stamp_signatures_ok stamp = false).
  { unfold stamp_signatures_ok. destruct Hs as [-> | ->]; rewrite Hc; reflexivity. }
  assert (Hw : stamp_signatures_writes stamp = [("noSignatures", VBool true)]).
  { unfold stamp_signatures_writes.
    destruct Hs as [-> | ->]; rewrite Hc; reflexivity. }
  rewrite Hok, andb_false_r. repeat split.
  unfold verify_writes. rewrite Hw, app_assoc.
  apply details_of_last. apply signal_key_absent. absent_key.
Qed.

(** C10. When the location is present but is not an object with a
    [coordinates] member (a bare string identifier, say), the verifier
    makes no latitude or longitude check: no [invalidLongitude] or
    [invalidLatitude] diagnostic is recorded and [signalsConsistent] is
    decided by the consolidated-result check alone, so that such a stamp
    passes the signal-consistency check whenever that check passes. *)
Theorem no_coordinate_check_without_coordinates (stamp : Stamp) :
  (exists s, location stamp = LocId s) \/ location stamp = LocNoCoordinates ->
  exists r,
    verifyWitnessChainStamp stamp = Ok r
    /\ details r !! "invalidLongitude" = None
    /\ details r !! "invalidLatitude" = None
    /\ signalsConsistent r =
         match consolidatedResult (signals stamp) with
         | Some consolidated => is_boolean (prop consolidated "KnowLoc")
         | None => true
         end
    /\ (consolidatedResult (signals stamp) = None -> signalsConsistent r = true).
Proof.
  intros Hloc. eexists. split; [apply verifyWitnessChainStamp_run |]. cbn.
  assert (Hco : coordinates_ok (location stamp) = true).
  { destruct Hloc as [[s ->] | ->]; reflexivity. }
  assert (Hcw : coordinates_writes (location stamp) = []).
  { destruct Hloc as [[s ->] | ->]; reflexivity. }
  assert (Habsent : forall k, k ∉ structure_keys -> k ∉ challenge_keys ->
            k ∉ "noSignatures" :: loop_keys ->
            k ∉ ["challengeFailed"; "invalidConsolidatedResult"] ->
            details_of (verify_writes stamp) !! k = None).
  { intros k H1 H2 H3 H4. apply details_of_None. unfold verify_writes.
    apply not_elem_of_app_keys;
      [| apply not_elem_of_app_keys; [| apply not_elem_of_app_keys]].
    - apply structure_key_absent, H1.
    - apply challenge_key_absent, H2.
    - apply stamp_signatures_key_absent, H3.
    - unfold signal_writes. rewrite Hcw. cbn [app]. intros Hin. apply H4.
      eapply elem_of_sublist; [exact Hin |].
      destruct (bool_decide (challengeSucceeded (signals stamp) = Some false));
        destruct (consolidated_ok stamp); cbn; sublist_keys. }
  split; [apply Habsent; absent_key |].
  split; [apply Habsent; absent_key |].
  unfold signals_ok, consolidated_ok. rewrite Hco. cbn [andb].
  split; [reflexivity |]. intros ->. reflexivity.
Qed.

Lemma assignments_eq stamp : assignments stamp = verify_writes stamp.
Proof. unfold assignments. rewrite verify_body_run. reflexivity. Qed.

Lemma wrapper_recovery_Mismatch stamp sig recovered :
  wrapper_recovery stamp sig = Mismatch recovered ->
  wrapper_mismatch stamp sig recovered.
Proof.
  unfold wrapper_recovery, recovery, wrapper_mismatch.
  destruct (verifyMessage _ _) as [r|e]; [| discriminate].
  destruct (bool_decide _) eqn:E; [discriminate |].
  intros [= ->]. split; [reflexivity |].
  apply bool_decide_eq_false in E. exact E.
Qed.

Lemma no_mismatch_key stamp sigs :
  (forall s recovered, s ∈ sigs -> ~ wrapper_mismatch stamp s recovered) ->
  "stampSignatureMismatch" ∉ keys (wrappers_writes stamp sigs).
Proof.
  induction sigs as [|sig rest IH]; intros H.
  - apply not_elem_of_nil.
  - rewrite wrappers_writes_cons. apply not_elem_of_app_keys.
    + unfold wrapper_writes.
      destruct (wrapper_recovery stamp sig) as [r|r|e] eqn:E; cbn.
      * apply not_elem_of_nil.
      * exfalso. apply (H sig r); [left |].
        apply wrapper_recovery_Mismatch, E.
      * absent_key.
    + apply IH. intros s r Hs. apply H. right. exact Hs.
Qed.

(** C8, as the code has it.  Throughout a call, a key of [details] is
    never removed, and a key written outside the loop over the wrapper
    signatures is never overwritten; the two keys of that loop,
    [stampSignatureMismatch] and [stampSignatureError], are assigned
    anew for each offending signature, so that the returned [details]
    holds under [stampSignatureMismatch] the pair of the last
    mismatching wrapper signature. *)
Theorem details_additive_outside_loop (stamp : Stamp)
  (pre post : list (string * jsval)) :
  assignments stamp = pre ++ post ->
  (forall k, is_Some (details_of pre !! k) ->
             is_Some (details_of (assignments stamp) !! k))
  /\ (forall k v, k ∉ loop_keys ->
        details_of pre !! k = Some v ->
        details_of (assignments stamp) !! k = Some v)
  /\ (exists r, verifyWitnessChainStamp stamp = Ok r
                /\ details r = details_of (assignments stamp))
  /\ (forall l1 sig l2 recovered,
        signatures stamp = Some (l1 ++ sig :: l2) ->
        wrapper_mismatch stamp sig recovered ->
        (forall s recovered', s ∈ l2 -> ~ wrapper_mismatch stamp s recovered') ->
        details_of (assignments stamp) !! "stampSignatureMismatch"
        = Some (pair_value (subject_value (sig_signer sig)) recovered)).
Proof.
  intros Hsplit. split; [| split; [| split]].
  - intros k Hk. rewrite Hsplit, details_of_app.
    apply foldl_assign_is_Some, Hk.
  - intros k v Hout Hk. rewrite Hsplit, details_of_app.
    rewrite foldl_assign_notin; [exact Hk |].
    pose proof (static_assignments_NoDup stamp) as Hnd.
    rewrite <- assignments_eq, Hsplit, keys_app, filter_app in Hnd.
    apply NoDup_app in Hnd as (_ & Hdisj & _).
    intros Hin. apply (Hdisj k).
    + apply list_elem_of_filter. split; [exact Hout |].
      eapply details_of_Some_key, Hk.
    + apply list_elem_of_filter. split; [exact Hout | exact Hin].
  - eexists. split; [apply verifyWitnessChainStamp_run |]. cbn.
    rewrite assignments_eq. reflexivity.
  - intros l1 sig l2 recovered Hs [Hrec Hne] Hlast.
    rewrite assignments_eq. unfold verify_writes, stamp_signatures_writes.
    rewrite Hs.
    assert (Hw : match l1 ++ sig :: l2 with
                 | [] => if is_absent (challengeResult (signals stamp))
                         then [("noSignatures", VBool true)] else []
                 | s0 :: rest => wrappers_writes stamp (s0 :: rest)
                 end = wrappers_writes stamp (l1 ++ sig :: l2)).
    { destruct l1; reflexivity. }
    rewrite Hw, wrappers_writes_app, wrappers_writes_cons.
    unfold wrapper_writes at 1, wrapper_recovery at 1.
    erewrite recovery_mismatch by eassumption. cbn [app].
    rewrite !app_assoc, <- app_assoc.
    apply details_of_last. apply not_elem_of_app_keys.
    + apply no_mismatch_key, Hlast.
    + apply signal_key_absent. absent_key.
Qed.

End VerifierTheorems.

(** ** The verifier on the sample inputs *)

Lemma nothing_to_verify_is_invalid_witness :
  exists r,
    verifyWitnessChainStamp (host := sample_host) failed_stamp = Ok r
    /\ signaturesValid r = false
    /\ valid r = false
    /\ details r !! "noSignatures" = Some (VBool true).
Proof.
  apply (nothing_to_verify_is_invalid (host := sample_host) failed_stamp).
  - reflexivity.
  - left. reflexivity.
Defined.

Lemma no_coordinate_check_without_coordinates_witness :
  exists r,
    verifyWitnessChainStamp (host := sample_host) cell_stamp = Ok r
    /\ details r !! "invalidLongitude" = None
    /\ details r !! "invalidLatitude" = None
    /\ signalsConsistent r = true.
Proof.
  destruct (no_coordinate_check_without_coordinates (host := sample_host) cell_stamp)
    as (r & Hr & Hlon & Hlat & Hsc & _).
  - left. exists "h3:8928308280fffff". reflexivity.
  - exists r. repeat split; assumption.
Defined.

Lemma wrapper_diagnostic_overwritten :
  exists pre post r,
    assignments (host := sample_host) twice_missigned_stamp = pre ++ post
    /\ wrapper_mismatch (host := sample_host) twice_missigned_stamp
         (wrapper "0xaaa1" "0xbbb1") "0xbbb1"
    /\ details_of pre !! "stampSignatureMismatch"
       = Some (pair_value "0xaaa1" "0xbbb1")
    /\ verifyWitnessChainStamp (host := sample_host) twice_missigned_stamp = Ok r
    /\ details r !! "stampSignatureMismatch"
       = Some (pair_value "0xaaa2" "0xbbb2")
    /\ (forall k, details r !! k <> Some (pair_value "0xaaa1" "0xbbb1")).
Proof.
  exists [("stampSignatureMismatch", pair_value "0xaaa1" "0xbbb1")].
  exists [("stampSignatureMismatch", pair_value "0xaaa2" "0xbbb2");
          ("challengeFailed", VBool true)].
  eexists.
  split; [vm_compute; reflexivity |].
  split; [split; [reflexivity | vm_compute; discriminate] |].
  split; [vm_compute; reflexivity |].
  split; [rewrite verifyWitnessChainStamp_run; reflexivity |].
  split; [vm_compute; reflexivity |].
  intros k. cbn [details].
  change (verify_writes (host := sample_host) twice_missigned_stamp)
    with [("stampSignatureMismatch", pair_value "0xaaa1" "0xbbb1");
          ("stampSignatureMismatch", pair_value "0xaaa2" "0xbbb2");
          ("challengeFailed", VBool true)].
  unfold details_of. cbn [foldl]. unfold assign. cbn [fst snd]. intros H.
  apply lookup_insert_Some in H as [[_ H]|[_ H]]; [discriminate H |].
  apply lookup_insert_Some in H as [[_ H]|[Hne H]]; [discriminate H |].
  apply lookup_insert_Some in H as [[Heq _]|[_ H]]; [congruence |].
  rewrite lookup_empty in H. discriminate H.
Qed.



Lemma details_additive_outside_loop_witness :
  assignments (host := sample_host) twice_missigned_stamp
  = [("stampSignatureMismatch", pair_value "0xaaa1" "0xbbb1")]
    ++ [("stampSignatureMismatch", pair_value "0xaaa2" "0xbbb2");
        ("challengeFailed", VBool true)]
  /\ (forall k,
        is_Some (details_of [("stampSignatureMismatch",
                              pair_value "0xaaa1" "0xbbb1")] !! k) ->
        is_Some (details_of (assignments (host := sample_host)
                               twice_missigned_stamp) !! k))
  /\ details_of (assignments (host := sample_host) twice_missigned_stamp)
       !! "stampSignatureMismatch"
     = Some (pair_value "0xaaa2" "0xbbb2").
Proof.
  assert (H : assignments (host := sample_host) twice_missigned_stamp
              = [("stampSignatureMismatch", pair_value "0xaaa1" "0xbbb1")]
                ++ [("stampSignatureMismatch", pair_value "0xaaa2" "0xbbb2");
                    ("challengeFailed", VBool true)])
    by (vm_compute; reflexivity).
  destruct (details_additive_outside_loop (host := sample_host) _ _ _ H)
    as (Hkeep & _ & _ & Hlast).
  split; [exact H |]. split; [exact Hkeep |].
  apply (Hlast [wrapper "0xaaa1" "0xbbb1"] (wrapper "0xaaa2" "0xbbb2") [] "0xbbb2").
  - reflexivity.
  - split; [reflexivity | vm_compute; discriminate].
  - intros s r Hin. apply elem_of_nil in Hin. contradiction.
Defined.

(** ** The evaluator *)

Lemma temporalOverlap_spec_witness :
  temporalOverlap {| tw_start := 0; tw_end := 10 |}
                  {| tw_start := 5; tw_end := 20 |} == (10 - 5) / 10
  /\ temporalOverlap {| tw_start := 0; tw_end := 10 |}
                     {| tw_start := 10; tw_end := 20 |} == 0
  /\ temporalOverlap {| tw_start := 7; tw_end := 7 |}
                     {| tw_start := 5; tw_end := 20 |} == 0
  /\ temporalOverlap {| tw_start := 5; tw_end := 20 |}
                     {| tw_start := 5; tw_end := 20 |} == 1.
Proof.
  split; [| split; [| split]].
  - destruct (temporalOverlap_spec {| tw_start := 0; tw_end := 10 |}
                                   {| tw_start := 5; tw_end := 20 |})
      as (Hratio & _).
    apply Hratio; reflexivity.
  - destruct (temporalOverlap_spec {| tw_start := 0; tw_end := 10 |}
                                   {| tw_start := 10; tw_end := 20 |})
      as (_ & _ & _ & _ & Hdisjoint & _).
    apply Hdisjoint. left. cbn. lra.
  - destruct (temporalOverlap_spec {| tw_start := 7; tw_end := 7 |}
                                   {| tw_start := 5; tw_end := 20 |})
      as (_ & _ & Hzero & _).
    apply Hzero. reflexivity.
  - destruct (temporalOverlap_spec {| tw_start := 5; tw_end := 20 |}
                                   {| tw_start := 5; tw_end := 20 |})
      as (_ & _ & _ & _ & _ & Hsame).
    apply Hsame; reflexivity.
Defined.

Section SpatialBase.
Variable r : Q.
Hypothesis r_pos : 0 < r.

Lemma spatial_base_at_zero : spatial_base 0 r == 1.
Proof.
  unfold spatial_base.
  assert (H : Qle_bool 0 r = true) by (apply Qle_bool_iff; lra).
  rewrite H. field. lra.
Qed.

Lemma spatial_base_inside d : d <= r -> spatial_base d r == 1 - d / r.
Proof.
  intros H. unfold spatial_base. apply Qle_bool_iff in H. rewrite H. reflexivity.
Qed.

Lemma spatial_base_outside d :
  r < d -> spatial_base d r == Qmax 0 (1 - d / (r * 3)).
Proof.
  intros H. unfold spatial_base. apply Qle_bool_false in H. rewrite H. reflexivity.
Qed.

Lemma Qdiv_le_compat d1 d2 q : 0 < q -> d1 <= d2 -> d1 / q <= d2 / q.
Proof.
  intros Hq H. unfold Qdiv. apply Qmult_le_compat_r; [exact H |].
  apply Qlt_le_weak, Qinv_lt_0_compat, Hq.
Qed.

(** The score vanishes from three effective radii on. *)
Lemma spatial_base_vanishes d : r * 3 <= d -> spatial_base d r == 0.
Proof.
  intros H. rewrite spatial_base_outside by lra.
  assert (H1 : 1 <= d / (r * 3)) by (apply Qle_shift_div_l; lra).
  destruct (Q.max_spec 0 (1 - d / (r * 3))) as [[? ->]|[? ->]]; lra.
Qed.

(** Each branch is non-increasing in the distance on its own. *)
Lemma spatial_base_nonincreasing_inside d1 d2 :
  d1 <= d2 -> d2 <= r -> spatial_base d2 r <= spatial_base d1 r.
Proof.
  intros H12 H2. rewrite !spatial_base_inside by lra.
  pose proof (Qdiv_le_compat d1 d2 r r_pos H12). lra.
Qed.

Lemma spatial_base_nonincreasing_outside d1 d2 :
  r < d1 -> d1 <= d2 -> spatial_base d2 r <= spatial_base d1 r.
Proof.
  intros H1 H12. rewrite !spatial_base_outside by lra.
  assert (Hq : 0 < r * 3) by lra.
  pose proof (Qdiv_le_compat d1 d2 (r * 3) Hq H12).
  apply Q.max_le_compat_l. lra.
Qed.

(** At the effective radius the score is 0, and just beyond it the
    score is back above 0: between one and three radii it is positive. *)
Lemma spatial_base_at_radius : spatial_base r r == 0.
Proof. rewrite spatial_base_inside by lra. field. lra. Qed.

Lemma spatial_base_positive_beyond d :
  r < d -> d < r * 3 -> 0 < spatial_base d r.
Proof.
  intros H1 H2. rewrite spatial_base_outside by lra.
  assert (H : d / (r * 3) < 1) by (apply Qlt_shift_div_r; lra).
  destruct (Q.max_spec 0 (1 - d / (r * 3))) as [[? ->]|[? ->]]; lra.
Qed.

End SpatialBase.

(** C1, on the code.  With an effective radius of 100 km, a stamp at
    88 956 m from the claim scores less than one at 111 195 m; at
    distance 0 the score is 1, at the radius it is 0, one metre further
    it is above 0.66, and from 300 km on it is 0: the base spatial score
    is not non-increasing in the distance. *)
Theorem spatial_base_rises_past_radius :
  spatial_base 0 100000 == 1
  /\ spatial_base 88956 100000 < spatial_base 111195 100000
  /\ spatial_base 100000 100000 == 0
  /\ 0.66 < spatial_base 100001 100000
  /\ spatial_base 300000 100000 == 0.
Proof. vm_compute. repeat split; discriminate. Qed.

Lemma clamp_max_min x : Qmax 0 (Qmin 1 x) == clamp x 0 1.
Proof.
  unfold clamp.
  destruct (Qltb x 0) eqn:E0; [apply Qltb_lt in E0 | apply Qltb_ge in E0];
  destruct (Qltb 1 x) eqn:E1; [apply Qltb_lt in E1 | apply Qltb_ge in E1
                              | apply Qltb_lt in E1 | apply Qltb_ge in E1];
  (destruct (Q.min_spec 1 x) as [[Hm Em]|[Hm Em]]; rewrite Em;
   [ destruct (Q.max_spec 0 1) as [[HM EM]|[HM EM]]
   | destruct (Q.max_spec 0 x) as [[HM EM]|[HM EM]] ]; rewrite EM; lra).
Qed.

Lemma challenge_penalty_eq stamp : challenge_penalty stamp = penalty stamp.
Proof.
  unfold challenge_penalty, penalty.
  destruct (challengeSucceeded (signals stamp)) as [[|]|]; reflexivity.
Qed.

Lemma andb3_true (a b c : bool) :
  a && b && c = true <-> a = true /\ b = true /\ c = true.
Proof. destruct a, b, c; cbn; intuition congruence. Qed.

(** Neither the bonuses nor the spatial score depend on [details]. *)
Lemma apply_bonuses_spatial consolidated x d d' :
  (apply_bonuses consolidated (x, d)).1 = (apply_bonuses consolidated (x, d')).1.
Proof.
  unfold apply_bonuses. destruct consolidated as [c|]; [| reflexivity].
  unfold verified_bonus, knowLoc_bonus, ip_bonus.
  destruct (is_true (prop c "verified"));
  destruct (is_true (prop c "KnowLoc"));
  destruct (0 <? (count_sources c).2)%Z; reflexivity.
Qed.

Section EvaluatorTheorems.
Context `{host : Host}.

(** C3. For a stamp and a claim with point-shaped locations the evaluator
    returns [score = clamp(spatial * 0.65 + temporal * 0.35 - penalty, 0, 1)]
    and [supportsClaim = (score > 0.3 /\ spatial > 0.1 /\ temporal > 0)],
    with [spatial] the bonus-adjusted spatial component and [penalty] the
    challenge-failure penalty. *)
Theorem evaluate_score_and_verdict (stamp : Stamp) (claim : LocationClaim)
  (lon lat clon clat : Q) (footprint : TimeWindow) :
  location stamp = LocGeo lon lat ->
  claim_location claim = LocGeo clon clat ->
  temporalFootprint stamp = Some footprint ->
  exists r,
    evaluateWitnessChainStamp stamp claim = Ok r
    /\ spatial r = adjusted_spatial stamp claim lon lat clon clat
    /\ temporal r = temporalOverlap footprint (claim_time claim)
    /\ score r == clamp (spatial r * 0.65 + temporal r * 0.35 - penalty stamp) 0 1
    /\ (supportsClaim r = true
        <-> 0.3 < score r /\ 0.1 < spatial r /\ 0 < temporal r).
Proof.
  intros Hl Hc Hf. unfold evaluateWitnessChainStamp. rewrite Hl, Hc, Hf.
  eexists. split; [reflexivity |]. cbn [spatial temporal score supportsClaim].
  split; [apply apply_bonuses_spatial |].
  split; [reflexivity |].
  split.
  - rewrite challenge_penalty_eq. apply clamp_max_min.
  - rewrite andb3_true, !Qltb_lt. reflexivity.
Qed.

Lemma clamp_shift raw : 0.3 <= raw -> raw <= 1 ->
  clamp (raw - 0.3) 0 1 == clamp raw 0 1 - 0.3.
Proof.
  intros H1 H2. unfold clamp.
  destruct (Qltb (raw - 0.3) 0) eqn:E0;
    [apply Qltb_lt in E0; lra | apply Qltb_ge in E0].
  destruct (Qltb 1 (raw - 0.3)) eqn:E1;
    [apply Qltb_lt in E1; lra | apply Qltb_ge in E1].
  destruct (Qltb raw 0) eqn:E2;
    [apply Qltb_lt in E2; lra | apply Qltb_ge in E2].
  destruct (Qltb 1 raw) eqn:E3;
    [apply Qltb_lt in E3; lra | apply Qltb_ge in E3].
  reflexivity.
Qed.

(** C6, as the code has it.  For a point-shaped stamp whose success flag
    is false the evaluator records [details.challengeFailedPenalty = 0.3]
    and leaves the spatial and temporal components as they are for the
    otherwise-identical successful stamp; the penalty is subtracted from
    the combined score before clamping, so that the score is
    [clamp(raw - 0.3, 0, 1)] where the successful stamp scores
    [clamp(raw, 0, 1)], and it is exactly 0.3 lower whenever
    [0.3 <= raw <= 1]. *)
Theorem failed_challenge_penalty (stamp : Stamp) (claim : LocationClaim)
  (lon lat clon clat : Q) (footprint : TimeWindow) :
  location stamp = LocGeo lon lat ->
  claim_location claim = LocGeo clon clat ->
  temporalFootprint stamp = Some footprint ->
  challengeSucceeded (signals stamp) = Some false ->
  exists r r_ok,
    evaluateWitnessChainStamp stamp claim = Ok r
    /\ evaluateWitnessChainStamp (with_challengeSucceeded true stamp) claim = Ok r_ok
    /\ cv_details r !! "challengeFailedPenalty" = Some (VNum 0.3)
    /\ spatial r = spatial r_ok
    /\ temporal r = temporal r_ok
    /\ (let raw := spatial r_ok * 0.65 + temporal r_ok * 0.35 in
        score r_ok == clamp raw 0 1
        /\ score r == clamp (raw - 0.3) 0 1
        /\ (0.3 <= raw -> raw <= 1 -> score r == score r_ok - 0.3)).
Proof.
  intros Hl Hc Hf Hfail. unfold evaluateWitnessChainStamp.
  cbn [with_challengeSucceeded location temporalFootprint signals
       knowLocUncertaintyKm consolidatedResult challengeSucceeded].
  unfold challenge_penalty.
  cbn [with_challengeSucceeded signals challengeSucceeded].
  rewrite Hl, Hc, Hf, Hfail.
  rewrite (bool_decide_eq_true_2 (Some false = Some false)) by reflexivity.
  rewrite (bool_decide_eq_false_2 (Some true = Some false)) by discriminate.
  eexists. eexists. split; [reflexivity |]. split; [reflexivity |].
  cbn [spatial temporal score cv_details].
  split; [apply details_of_last; apply not_elem_of_nil |].
  split; [reflexivity |]. split; [reflexivity |].
  cbn zeta.
  assert (H0 : forall x, Qmax 0 (Qmin 1 (x - 0)) == clamp x 0 1).
  { intros x. rewrite <- clamp_max_min.
    assert (Hx : x - 0 == x) by ring. rewrite Hx. reflexivity. }
  split; [apply H0 |]. split; [apply clamp_max_min |].
  intros H1 H2. rewrite clamp_max_min, H0. apply clamp_shift; assumption.
Qed.

End EvaluatorTheorems.

(** ** The evaluator on the sample inputs *)

Lemma evaluate_score_and_verdict_witness :
  exists r,
    evaluateWitnessChainStamp (host := sample_host) failed_stamp nearClaim = Ok r
    /\ score r == 0.7
    /\ supportsClaim r = true.
Proof.
  destruct (evaluate_score_and_verdict (host := sample_host) failed_stamp nearClaim
              (-73.9857) 40.7484 (-73.9857) 40.7484
              {| tw_start := 1768478400; tw_end := 1768478410 |})
    as (r & Hr & Hs & Ht & Hscore & Hverdict); try reflexivity.
  exists r. split; [exact Hr |].
  assert (Hscore' : score r == 0.7).
  { rewrite Hscore, Hs, Ht. vm_compute. reflexivity. }
  split; [exact Hscore' |].
  apply Hverdict. rewrite Hscore', Hs, Ht. vm_compute. repeat split.
Defined.

(** The failed stamp against a claim in London in 2025: both scores are
    0, so the failed stamp does not score 0.3 lower. *)
Lemma penalty_lost_in_clamp :
  exists r r_ok,
    location failed_stamp = LocGeo (-73.9857) 40.7484
    /\ challengeSucceeded (signals failed_stamp) = Some false
    /\ evaluateWitnessChainStamp (host := sample_host) failed_stamp londonClaim
       = Ok r
    /\ evaluateWitnessChainStamp (host := sample_host)
         (with_challengeSucceeded true failed_stamp) londonClaim
       = Ok r_ok
    /\ score r_ok == 0
    /\ score r == 0
    /\ ~ score r == score r_ok - 0.3.
Proof.
  eexists. eexists.
  split; [reflexivity |]. split; [reflexivity |].
  split; [reflexivity |]. split; [reflexivity |].
  split; [vm_compute; reflexivity |].
  split; [vm_compute; reflexivity |].
  vm_compute. discriminate.
Qed.

Lemma failed_challenge_penalty_witness :
  exists r r_ok,
    evaluateWitnessChainStamp (host := sample_host) failed_stamp nearClaim = Ok r
    /\ evaluateWitnessChainStamp (host := sample_host)
         (with_challengeSucceeded true failed_stamp) nearClaim
       = Ok r_ok
    /\ cv_details r !! "challengeFailedPenalty" = Some (VNum 0.3)
    /\ spatial r = spatial r_ok
    /\ score r == score r_ok - 0.3.
Proof.
  destruct (failed_challenge_penalty (host := sample_host) failed_stamp nearClaim
              (-73.9857) 40.7484 (-73.9857) 40.7484
              {| tw_start := 1768478400; tw_end := 1768478410 |})
    as (r & r_ok & Hr & Hok & Hd & Hs & Ht & Hraw & Hfail & Hexact);
    try reflexivity.
  exists r, r_ok. repeat (split; [assumption |]).
  pose proof Hok as E. vm_compute in E. injection E as E. subst r_ok.
  apply Hexact; vm_compute; discriminate.
Defined.

(** ** The pipeline: normalize, build, sign *)

Section PipelineTheorems.
Context `{host : Host}.

(** C9, as the code has it.  Normalizing a challenge result and
    building the stamp from it returns a stamp, and depends on what is
    around the call through one value only, the instant that
    [new Date(e.challenge_start_time).getTime()] gives: two runs that
    read the same instant, in whatever hosts and under whatever clocks,
    return the same stamp.  Two runs in one process environment always
    do. *)
Theorem pipeline_deterministic (h1 h2 : Host) (e : WitnessChainChallengeResult)
  (w1 w2 : World) :
  @Date_getTime h1 (challenge_start_time e)
  = @Date_getTime h2 (challenge_start_time e) ->
  @pipeline h1 e w1 = @pipeline h2 e w2
  /\ exists stamp,
       @pipeline h1 e w1 = Ok stamp
       /\ location stamp = LocGeo (longitude (claims e)) (latitude (claims e))
       /\ signatures stamp = None.
Proof.
  intros Hdate.
  unfold pipeline, andThen, signalsFromChallengeResult, createWitnessChainStamp, pure.
  cbn [rs_data data_challengeResult]. rewrite Hdate.
  split; [reflexivity |].
  eexists. split; [reflexivity |]. split; reflexivity.
Qed.

(** C2, as the code has it.  [sign] allocates a new stamp object and
    leaves every object of the store, the input stamp included, as it
    was.  The new stamp has the members of the input and a signature
    sequence that holds exactly the one new signature record: for an
    input without signatures this is the prior (empty) sequence with the
    record appended, and a [signatures] member the input may carry is
    replaced, not copied. *)
Theorem sign_allocates_signed_copy (σ : Store) (ref : nat) (k : StampSigner)
  (w : World) (stamp : Stamp) (sigValue : string) :
  σ !! ref = Some stamp ->
  signer_sign k (JSON_stringify stamp) = Ok sigValue ->
  exists ref' σ' signed,
    sign σ ref k w = Ok (ref', σ')
    /\ σ' !! ref' = Some signed
    /\ ref' <> ref
    /\ (forall i o, σ !! i = Some o -> σ' !! i = Some o)
    /\ σ' !! ref = Some stamp
    /\ signatures signed = Some [new_signature k sigValue w]
    /\ without_signatures signed = without_signatures stamp
    /\ (signatures stamp = None \/ signatures stamp = Some [] ->
        signatures signed
        = Some (default [] (signatures stamp) ++ [new_signature k sigValue w])).
Proof.
  intros Href Hsig. unfold sign, andThen, await, Date_now, pure, alloc.
  rewrite Href, Hsig.
  eexists. eexists. eexists. split; [reflexivity |].
  assert (Hkeep : forall (x : Stamp) i o,
            σ !! i = Some o -> (σ ++ [x]) !! i = Some o).
  { intros x i o Hi. rewrite lookup_app_l; [exact Hi |].
    eapply lookup_lt_Some, Hi. }
  split; [| split; [| split; [| split; [| split; [| split]]]]].
  - rewrite lookup_app_r by reflexivity.
    rewrite Nat.sub_diag. reflexivity.
  - apply lookup_lt_Some in Href. lia.
  - intros i o Hi. apply Hkeep, Hi.
  - apply Hkeep, Href.
  - reflexivity.
  - reflexivity.
  - intros [-> | ->]; reflexivity.
Qed.

End PipelineTheorems.

(** The pipeline on the challenge fixture: a ten-second window from
    2026-01-15T12:00:00Z at the prover's claimed point. *)
Example pipeline_on_fixture :
  exists stamp,
    pipeline (host := sample_host) challenge_fixture sample_world = Ok stamp
    /\ location stamp = LocGeo (-73.9857) 40.7484
    /\ temporalFootprint stamp
       = Some {| tw_start := 1768478400; tw_end := 1768478410 |}
    /\ challengeSucceeded (signals stamp) = Some true
    /\ knowLocUncertaintyKm (signals stamp) = Some 5.2.
Proof.
  eexists. split; [vm_compute; reflexivity |]. repeat split.
Qed.

Lemma sign_allocates_signed_copy_witness :
  exists ref' σ' signed,
    sign (host := sample_host) [failed_stamp] 0 (sample_signer "0xccc3") sample_world
    = Ok (ref', σ')
    /\ σ' !! ref' = Some signed
    /\ σ' !! 0%nat = Some failed_stamp
    /\ signatures signed
       = Some [new_signature (sample_signer "0xccc3") "0xccc3" sample_world].
Proof.
  destruct (sign_allocates_signed_copy (host := sample_host) [failed_stamp] 0
              (sample_signer "0xccc3") sample_world failed_stamp "0xccc3")
    as (ref' & σ' & signed & Hs & Hnew & _ & _ & Hold & Hsigs & _);
    [reflexivity | reflexivity |].
  exists ref', σ', signed. repeat split; assumption.
Defined.

(** A start time that names its offset is read alike in every time
    zone, and the pipeline then returns the same stamp in every one. *)
Lemma read_offset_named local1 local2 c s :
  read_offset local1 (String c s) = read_offset local2 (String c s).
Proof.
  unfold read_offset.
  destruct c as [[] [] [] [] [] [] [] []]; destruct s; reflexivity.
Qed.

Lemma iso_getTime_zone local1 local2 s :
  reads_local_time s = false -> iso_getTime local1 s = iso_getTime local2 s.
Proof.
  unfold iso_getTime, reads_local_time.
  destruct (read_date s) as [[day rest]|]; [| reflexivity]. cbn [mbind option_bind].
  destruct rest as [|c rest]; [reflexivity |].
  destruct c as [[] [] [] [] [] [] [] []]; try reflexivity.
  destruct (read_time rest) as [[time rest']|]; [| reflexivity].
  cbn [mbind option_bind].
  destruct rest' as [|c' rest']; [discriminate |].
  intros _. rewrite (read_offset_named local1 local2). reflexivity.
Qed.

Lemma pipeline_in_any_zone (base1 base2 : Host) (local1 local2 : Z)
  (e : WitnessChainChallengeResult) (w1 w2 : World) (ms : Q) :
  iso_getTime local1 (challenge_start_time e) = Some ms ->
  reads_local_time (challenge_start_time e) = false ->
  pipeline (host := in_zone local1 base1) e w1
  = pipeline (host := in_zone local2 base2) e w2.
Proof.
  intros _ Hnamed.
  unfold pipeline, andThen, signalsFromChallengeResult, createWitnessChainStamp, pure.
  cbn [rs_data data_challengeResult Date_getTime in_zone with_Date].
  rewrite (iso_getTime_zone local1 local2 _ Hnamed). reflexivity.
Qed.

(** The fixture's start time names its offset: the pipeline returns the
    same stamp in a process on UTC and in one nine hours ahead of it,
    under different clocks. *)
Lemma pipeline_deterministic_witness :
  pipeline (host := in_zone 0 sample_host) challenge_fixture sample_world
  = pipeline (host := in_zone 540 sample_host) challenge_fixture {| clock_ms := 0 |}.
Proof.
  destruct (pipeline_deterministic (in_zone 0 sample_host) (in_zone 540 sample_host)
              challenge_fixture sample_world {| clock_ms := 0 |})
    as [Hsame _]; [vm_compute; reflexivity | exact Hsame].
Defined.

(** The same evidence with a start time that names no offset: a process
    on UTC and a process nine hours ahead of it build stamps whose
    windows lie nine hours apart. *)
Lemma pipeline_depends_on_time_zone :
  exists utc tokyo,
    pipeline (host := in_zone 0 sample_host) zoneless_fixture sample_world = Ok utc
    /\ pipeline (host := in_zone 540 sample_host) zoneless_fixture sample_world
       = Ok tokyo
    /\ temporalFootprint utc
       = Some {| tw_start := 1768478400; tw_end := 1768478410 |}
    /\ temporalFootprint tokyo
       = Some {| tw_start := 1768446000; tw_end := 1768446010 |}
    /\ utc <> tokyo.
Proof.
  eexists. eexists.
  split; [vm_compute; reflexivity |]. split; [vm_compute; reflexivity |].
  split; [reflexivity |]. split; [reflexivity |].
  intros H. apply (f_equal temporalFootprint) in H. discriminate H.
Qed.

(** Unlike the pipeline, [sign] reads the clock: the same call under
    another clock returns another timestamp. *)
Example sign_reads_the_clock :
  sign (host := sample_host) [failed_stamp] 0 (sample_signer "0xccc3")
       {| clock_ms := 0 |}
  <> sign (host := sample_host) [failed_stamp] 0 (sample_signer "0xccc3")
          sample_world.
Proof. vm_compute. discriminate. Qed.

(** Signing a stamp that carries a signature already: the result holds
    the new signature only, not the prior sequence with it appended. *)
Lemma sign_drops_prior_signatures :
  let prior := [wrapper "0xaaa1" "0xaaa1"] in
  let s := spread_with_signatures failed_stamp prior in
  let added := new_signature (sample_signer "0xccc3") "0xccc3" sample_world in
  exists σ' signed,
    signatures s = Some prior
    /\ sign (host := sample_host) [s] 0 (sample_signer "0xccc3") sample_world
       = Ok (1%nat, σ')
    /\ σ' !! 1%nat = Some signed
    /\ signatures signed = Some [added]
    /\ signatures signed <> Some (prior ++ [added]).
Proof.
  intros prior s added.
  exists [s; spread_with_signatures s [added]], (spread_with_signatures s [added]).
  split; [reflexivity |]. split; [vm_compute; reflexivity |].
  split; [reflexivity |]. split; [reflexivity |]. cbn. discriminate.
Qed.

(** * Further properties of the sources *)

(** ** Collection *)

Lemma find_first_split {A} (f : A -> bool) (l : list A) (x : A) :
  List.find f l = Some x ->
  exists l1 l2, l = l1 ++ x :: l2 /\ f x = true /\ (forall y, y ∈ l1 -> f y = false).
Proof.
  induction l as [|a l IH]; [discriminate |]. cbn.
  destruct (f a) eqn:E.
  - intros [= ->]. exists [], l. split; [reflexivity |]. split; [exact E |].
    intros y Hy. apply elem_of_nil in Hy. contradiction.
  - intros H. destruct (IH H) as (l1 & l2 & -> & Hx & Hl1).
    exists (a :: l1), l2. split; [reflexivity |]. split; [exact Hx |].
    intros y [-> | Hy]%elem_of_cons; [exact E | apply Hl1, Hy].
Qed.

Lemma filter_head_split {A} (f : A -> bool) (l : list A) (x : A) (rest : list A) :
  List.filter f l = x :: rest ->
  exists l1 l2, l = l1 ++ x :: l2 /\ f x = true /\ (forall y, y ∈ l1 -> f y = false).
Proof.
  induction l as [|a l IH]; [discriminate |]. cbn.
  destruct (f a) eqn:E.
  - intros [= -> _]. exists [], l. split; [reflexivity |]. split; [exact E |].
    intros y Hy. apply elem_of_nil in Hy. contradiction.
  - intros H. destruct (IH H) as (l1 & l2 & -> & Hx & Hl1).
    exists (a :: l1), l2. split; [reflexivity |]. split; [exact Hx |].
    intros y [-> | Hy]%elem_of_cons; [exact E | apply Hl1, Hy].
Qed.

Section CollectTheorems.
Context `{host : Host}.

(** What a successful [collectWitnessChain] went through. *)
Lemma collectWitnessChain_Ok `{net : Network} proverId options w bundle :
  collectWitnessChain proverId options w = Ok bundle ->
  exists response provers prover latest rest,
    falsy_string (sessionCookie options) && falsy_string (privateKey options) = false
    /\ fetch (request_url options) (request_headers options) = Ok response
    /\ ok response = true
    /\ json response = Ok provers
    /\ List.find (fun p => bool_decide (prover_id p = proverId)) provers = Some prover
    /\ List.filter (fun r => challenge_succeeded (result r)) (prover_results prover)
       = latest :: rest
    /\ bundle
       = {| rs_plugin := "witnesschain";
            rs_timestamp :=
              Math_floor (Date_getTime (challenge_start_time latest) / 1000);
            rs_data := {| data_challengeResult := Some latest;
                          data_proverClaims := Some (prover_claims prover);
                          data_proverId := Some proverId |} |}.
Proof.
  unfold collectWitnessChain, andThen, await, raise, pure.
  destruct (falsy_string (sessionCookie options) && falsy_string (privateKey options));
    [discriminate |].
  destruct (fetch _ _) as [response|e] eqn:Efetch; [| discriminate].
  destruct (ok response) eqn:Eok; cbn [negb]; [| discriminate].
  destruct (json response) as [provers|e] eqn:Ejson; [| discriminate].
  destruct (List.find _ provers) as [prover|] eqn:Efind; [| discriminate].
  destruct (List.filter _ (prover_results prover)) as [|latest rest] eqn:Efilter;
    [discriminate |].
  intros [= <-]. exists response, provers, prover, latest, rest.
  repeat split; try assumption; reflexivity.
Qed.

(** X1. The evidence that [collectWitnessChain] returns is a successful
    challenge, the first successful one in the result list of the first
    prover entry with the requested id; the bundle carries that entry's
    claims and the requested id. *)
Theorem collect_returns_first_successful `{net : Network}
  proverId options w bundle :
  collectWitnessChain proverId options w = Ok bundle ->
  exists response provers before prover after earlier latest later,
    fetch (request_url options) (request_headers options) = Ok response
    /\ json response = Ok provers
    /\ provers = before ++ prover :: after
    /\ prover_id prover = proverId
    /\ (forall p, p ∈ before -> prover_id p <> proverId)
    /\ prover_results prover = earlier ++ latest :: later
    /\ challenge_succeeded (result latest) = true
    /\ (forall r, r ∈ earlier -> challenge_succeeded (result r) = false)
    /\ data_challengeResult (rs_data bundle) = Some latest
    /\ data_proverClaims (rs_data bundle) = Some (prover_claims prover)
    /\ data_proverId (rs_data bundle) = Some proverId
    /\ rs_plugin bundle = "witnesschain".
Proof.
  intros H.
  destruct (collectWitnessChain_Ok _ _ _ _ H)
    as (response & provers & prover & latest & rest
        & _ & Hfetch & _ & Hjson & Hfind & Hfilter & ->).
  destruct (find_first_split _ _ _ Hfind) as (before & after & Hp & Hid & Hbefore).
  destruct (filter_head_split _ _ _ _ Hfilter)
    as (earlier & later & Hr & Hok & Hearlier).
  exists response, provers, before, prover, after, earlier, latest, later.
  repeat split; try assumption.
  - apply bool_decide_eq_true in Hid. exact Hid.
  - intros p Hin. specialize (Hbefore p Hin).
    apply bool_decide_eq_false in Hbefore. exact Hbefore.
Qed.

(** X2. Without a truthy [sessionCookie] or [privateKey],
    [collectWitnessChain] throws the authentication error whatever the
    network would answer. *)
Theorem collect_requires_credentials (net : Network) proverId options w :
  falsy_string (sessionCookie options) = true ->
  falsy_string (privateKey options) = true ->
  collectWitnessChain proverId options w = Throw AUTH_REQUIRED.
Proof.
  intros H1 H2. unfold collectWitnessChain. rewrite H1, H2. reflexivity.
Qed.

(** X3. [collectWitnessChain] consults the network through one request
    only, to [apiUrl + "/pol/all-provers"] (the default base when
    [apiUrl] is absent): two networks that answer that request alike give
    the same outcome.  Its headers are the content type and, when the
    session cookie is truthy, the cookie; the private key is in no
    header. *)
Theorem collect_sends_one_request (net1 net2 : Network) proverId options w :
  @fetch net1 (request_url options) (request_headers options)
  = @fetch net2 (request_url options) (request_headers options) ->
  @collectWitnessChain host net1 proverId options w
  = @collectWitnessChain host net2 proverId options w
  /\ (forall k v, request_headers options !! k = Some v ->
        (k = "Content-Type" /\ v = "application/json")
        \/ (k = "Cookie" /\ sessionCookie options = Some v /\ v <> ""))
  /\ (apiUrl options = None ->
      request_url options = "https://witnesschain.com/pol/all-provers").
Proof.
  intros H. split; [| split].
  - unfold collectWitnessChain, andThen, await. rewrite H. reflexivity.
  - intros k v. unfold request_headers.
    destruct (sessionCookie options) as [cookie|].
    + cbn [falsy_string]. destruct (bool_decide (cookie = "")) eqn:E.
      * intros [<- <-]%lookup_singleton_Some. left. split; reflexivity.
      * apply bool_decide_eq_false in E.
        intros [[<- <-]|[_ [<- <-]%lookup_singleton_Some]]%lookup_insert_Some.
        -- right. repeat split. exact E.
        -- left. split; reflexivity.
    + intros [<- <-]%lookup_singleton_Some. left. split; reflexivity.
  - intros Hu. unfold request_url. rewrite Hu. reflexivity.
Qed.

(** X4. The failures of [collectWitnessChain] once the credentials are
    there: a response that is not [ok] gives the API error with its
    status, whatever its body; a body without an entry of the requested
    id gives the prover-not-found error; an entry without a successful
    result gives the no-successful-challenge error. *)
Theorem collect_failures `{net : Network} proverId options w response :
  falsy_string (sessionCookie options) && falsy_string (privateKey options) = false ->
  fetch (request_url options) (request_headers options) = Ok response ->
  (ok response = false ->
     collectWitnessChain proverId options w
     = Throw ("WitnessChain API error: " +:+ pretty (status response)
              +:+ " " +:+ statusText response))
  /\ (forall provers,
        ok response = true -> json response = Ok provers ->
        (forall p, p ∈ provers -> prover_id p <> proverId) ->
        collectWitnessChain proverId options w
        = Throw ("Prover '" +:+ proverId +:+ "' not found"))
  /\ (forall provers before prover after,
        ok response = true -> json response = Ok provers ->
        provers = before ++ prover :: after ->
        prover_id prover = proverId ->
        (forall p, p ∈ before -> prover_id p <> proverId) ->
        (forall r, r ∈ prover_results prover ->
                   challenge_succeeded (result r) = false) ->
        collectWitnessChain proverId options w
        = Throw ("No successful challenges found for prover '"
                 +:+ proverId +:+ "'")).
Proof.
  intros Hauth Hfetch.
  unfold collectWitnessChain, andThen, await, raise. rewrite Hauth, Hfetch.
  split; [| split].
  - intros ->. reflexivity.
  - intros provers -> -> Hnone. cbn [negb].
    assert (Hfind : List.find (fun p => bool_decide (prover_id p = proverId)) provers
                    = None).
    { induction provers as [|p ps IH]; [reflexivity |]. cbn.
      rewrite bool_decide_eq_false_2 by (apply Hnone; left).
      apply IH. intros q Hq. apply Hnone. right. exact Hq. }
    rewrite Hfind. reflexivity.
  - intros provers before prover after -> -> -> Hid Hbefore Hfailed. cbn [negb].
    assert (Hfind : List.find (fun p => bool_decide (prover_id p = proverId))
                      (before ++ prover :: after) = Some prover).
    { clear Hfailed. induction before as [|p ps IH]; cbn.
      - rewrite bool_decide_eq_true_2 by exact Hid. reflexivity.
      - rewrite bool_decide_eq_false_2 by (apply Hbefore; left).
        apply IH. intros q Hq. apply Hbefore. right. exact Hq. }
    rewrite Hfind.
    assert (Hfilter : List.filter (fun r => challenge_succeeded (result r))
                        (prover_results prover) = []).
    { induction (prover_results prover) as [|r rs IH]; [reflexivity |]. cbn.
      rewrite (Hfailed r) by left.
      apply IH. intros q Hq. apply Hfailed. right. exact Hq. }
    rewrite Hfilter. reflexivity.
Qed.

(** X5. Signals that [collectWitnessChain] returns always build: the
    stamp builder does not throw on them, the stamp's success flag is
    true, so that the evaluator's failure penalty is 0 for it, and its
    window starts at the bundle's timestamp. *)
Theorem collected_signals_build `{net : Network} proverId options w w' bundle :
  collectWitnessChain proverId options w = Ok bundle ->
  exists stamp footprint,
    createWitnessChainStamp bundle w' = Ok stamp
    /\ challengeSucceeded (signals stamp) = Some true
    /\ challenge_penalty stamp = 0%Q
    /\ temporalFootprint stamp = Some footprint
    /\ tw_start footprint = rs_timestamp bundle.
Proof.
  intros H.
  destruct (collectWitnessChain_Ok _ _ _ _ H)
    as (_ & _ & prover & latest & rest & _ & _ & _ & _ & _ & Hfilter & ->).
  destruct (filter_head_split _ _ _ _ Hfilter) as (_ & _ & _ & Hok & _).
  unfold createWitnessChainStamp, pure. cbn.
  eexists. eexists. split; [reflexivity |]. cbn.
  unfold challenge_penalty. cbn. rewrite Hok.
  repeat split.
Qed.

(** X6. The plugin's [collect] throws the prover-id error when no prover
    id, or an empty one, was given to the constructor, before looking at
    credentials or network; otherwise it is [collectWitnessChain] on the
    constructor's options. *)
Theorem plugin_collect_requires_proverId `{net : Network}
  (this : WitnessChainPlugin) w :
  (falsy_string (plugin_proverId this) = true ->
     plugin_collect this w = Throw PROVER_ID_REQUIRED)
  /\ (forall proverId,
        plugin_proverId this = Some proverId -> proverId <> "" ->
        plugin_collect this w
        = collectWitnessChain proverId (plugin_options this) w).
Proof.
  unfold plugin_collect. split.
  - destruct (plugin_proverId this) as [p|]; [| reflexivity].
    intros H. rewrite H. reflexivity.
  - intros p -> Hne. cbn [falsy_string].
    rewrite bool_decide_eq_false_2 by exact Hne. reflexivity.
Qed.

End CollectTheorems.

(** *** Collection on the sample network *)

Lemma collect_returns_first_successful_witness :
  exists bundle latest,
    collectWitnessChain (host := sample_host) (net := sample_network)
      "prover-nyc" cookie_options sample_world = Ok bundle
    /\ data_challengeResult (rs_data bundle) = Some latest
    /\ challenge_succeeded (result latest) = true
    /\ data_proverId (rs_data bundle) = Some "prover-nyc".
Proof.
  destruct (collectWitnessChain (host := sample_host) (net := sample_network)
              "prover-nyc" cookie_options sample_world) as [bundle|e] eqn:E;
    [| vm_compute in E; discriminate E].
  destruct (collect_returns_first_successful (host := sample_host)
              (net := sample_network) _ _ _ _ E)
    as (_ & _ & _ & _ & _ & _ & latest & _
        & _ & _ & _ & _ & _ & _ & Hok & _ & Hlatest & _ & Hid & _).
  exists bundle, latest. repeat split; assumption.
Defined.

Lemma collect_requires_credentials_witness :
  collectWitnessChain (host := sample_host) (net := sample_network) "prover-nyc"
    {| apiUrl := None; privateKey := Some ""; sessionCookie := None |} sample_world
  = Throw AUTH_REQUIRED.
Proof.
  apply (collect_requires_credentials (host := sample_host) sample_network);
    reflexivity.
Defined.

Lemma collect_sends_one_request_witness :
  collectWitnessChain (host := sample_host) (net := sample_network)
    "prover-nyc" cookie_options sample_world
  = collectWitnessChain (host := sample_host)
      (net := {| fetch := fun url _ =>
                   if bool_decide (url = "https://witnesschain.com/pol/all-provers")
                   then Ok {| ok := true; status := 200%N; statusText := "OK";
                              json := Ok sample_provers |}
                   else Throw "unreachable" |})
      "prover-nyc" cookie_options sample_world.
Proof.
  eapply (collect_sends_one_request (host := sample_host)). reflexivity.
Defined.

Lemma collect_failures_witness :
  collectWitnessChain (host := sample_host)
    (net := network_of (Ok {| ok := false; status := 503%N;
                              statusText := "Service Unavailable";
                              json := Throw "Unexpected token" |}))
    "prover-nyc" cookie_options sample_world
  = Throw "WitnessChain API error: 503 Service Unavailable"
  /\ collectWitnessChain (host := sample_host) (net := sample_network)
       "prover-b" cookie_options sample_world
     = Throw "Prover 'prover-b' not found".
Proof.
  split.
  - destruct (collect_failures (host := sample_host)
                (net := network_of (Ok {| ok := false; status := 503%N;
                                          statusText := "Service Unavailable";
                                          json := Throw "Unexpected token" |}))
                "prover-nyc" cookie_options sample_world
                {| ok := false; status := 503%N;
                   statusText := "Service Unavailable";
                   json := Throw "Unexpected token" |} eq_refl eq_refl)
      as (Hstatus & _).
    apply Hstatus. reflexivity.
  - destruct (collect_failures (host := sample_host) (net := sample_network)
                "prover-b" cookie_options sample_world
                {| ok := true; status := 200%N; statusText := "OK";
                   json := Ok sample_provers |} eq_refl eq_refl)
      as (_ & Hmissing & _).
    apply (Hmissing sample_provers); try reflexivity.
    intros p Hp.
    apply elem_of_cons in Hp as [-> | Hp]; [discriminate |].
    apply elem_of_cons in Hp as [-> | Hp]; [discriminate |].
    apply elem_of_nil in Hp. contradiction.
Defined.

Lemma collected_signals_build_witness :
  exists stamp,
    andThen (collectWitnessChain (host := sample_host) (net := sample_network)
               "prover-nyc" cookie_options)
            (createWitnessChainStamp (host := sample_host)) sample_world
    = Ok stamp
    /\ challengeSucceeded (signals stamp) = Some true.
Proof.
  unfold andThen.
  destruct (collectWitnessChain (host := sample_host) (net := sample_network)
              "prover-nyc" cookie_options sample_world) as [bundle|e] eqn:E;
    [| vm_compute in E; discriminate E].
  destruct (collected_signals_build (host := sample_host) (net := sample_network)
              _ _ _ sample_world _ E) as (stamp & _ & Hs & Hflag & _).
  exists stamp. split; assumption.
Defined.

Lemma plugin_collect_requires_proverId_witness :
  plugin_collect (host := sample_host) (net := sample_network)
    {| plugin_options := cookie_options; plugin_proverId := None |} sample_world
  = Throw PROVER_ID_REQUIRED
  /\ plugin_collect (host := sample_host) (net := sample_network)
       {| plugin_options := cookie_options; plugin_proverId := Some "prover-nyc" |}
       sample_world
     = collectWitnessChain (host := sample_host) (net := sample_network)
         "prover-nyc" cookie_options sample_world.
Proof.
  split.
  - apply (plugin_collect_requires_proverId (host := sample_host)
             (net := sample_network)). reflexivity.
  - apply (plugin_collect_requires_proverId (host := sample_host)
             (net := sample_network)); [reflexivity | discriminate].
Defined.

(** ** Stamp building *)

Lemma Math_floor_bounds x : Math_floor x <= x /\ x < Math_floor x + 1.
Proof.
  unfold Math_floor. split; [apply Qfloor_le |].
  pose proof (Qlt_floor x) as H. rewrite inject_Z_plus in H. exact H.
Qed.

Lemma Math_ceil_le_5 x : x <= 5 -> Math_ceil x <= 5.
Proof.
  intros H. unfold Math_ceil.
  apply (Qceiling_resp_le x 5) in H.
  change (Qceiling 5) with (Qceiling (inject_Z 5)) in H.
  rewrite Qceiling_Z in H.
  change (inject_Z (Qceiling x) <= inject_Z 5). rewrite <- Zle_Qle. exact H.
Qed.

Lemma Math_ceil_gt_5 x : 5 < x -> 5 < Math_ceil x.
Proof.
  intros H. unfold Math_ceil. pose proof (Qle_ceiling x). lra.
Qed.

Section CreateTheorems.
Context `{host : Host}.

(** X7. In a host that reads the start time of the evidence [e] as a
    date, at the instant [ms], the stamp built from signals with
    evidence [e] has a time window that starts at the whole second of
    [ms] and lasts [max(10, ceil(ping_delay / 1e6) + 5)] seconds: at
    least 10, so the window is not empty; exactly 10 for a ping delay of
    at most five seconds, and [ceil(ping_delay / 1e6) + 5] above that. *)
Theorem created_window (base : Host) (getTime : string -> option Q)
  (bundle : RawSignals) (e : WitnessChainChallengeResult) (w : World) (ms : Q) :
  data_challengeResult (rs_data bundle) = Some e ->
  getTime (challenge_start_time e) = Some ms ->
  exists stamp footprint,
    createWitnessChainStamp (host := with_Date getTime base) bundle w = Ok stamp
    /\ temporalFootprint stamp = Some footprint
    /\ tw_start footprint <= ms / 1000
    /\ ms / 1000 < tw_start footprint + 1
    /\ tw_end footprint - tw_start footprint
       == Qmax 10 (Math_ceil (ping_delay (result e) / 1000000) + 5)
    /\ 10 <= tw_end footprint - tw_start footprint
    /\ tw_start footprint < tw_end footprint
    /\ (ping_delay (result e) <= 5000000 ->
        tw_end footprint - tw_start footprint == 10)
    /\ (5000000 < ping_delay (result e) ->
        tw_end footprint - tw_start footprint
        == Math_ceil (ping_delay (result e) / 1000000) + 5).
Proof.
  intros He Hms. unfold createWitnessChainStamp, pure. rewrite He.
  eexists. eexists. split; [reflexivity |]. split; [reflexivity |].
  cbn [tw_start tw_end Date_getTime with_Date]. rewrite Hms.
  change (default 0 (Some ms)) with ms.
  set (start := Math_floor (ms / 1000)).
  set (c := Math_ceil (ping_delay (result e) / 1000000)).
  destruct (Math_floor_bounds (ms / 1000)) as [Hlo Hhi]. fold start in Hlo, Hhi.
  split; [exact Hlo |]. split; [exact Hhi |].
  assert (Hd : start + Qmax 10 (c + 5) - start == Qmax 10 (c + 5)) by ring.
  split; [exact Hd |].
  pose proof (Q.le_max_l 10 (c + 5)) as Hmax.
  split; [lra |]. split; [lra |]. split.
  - intros Hp. rewrite Hd.
    assert (Hc : c <= 5).
    { apply Math_ceil_le_5. apply Qle_shift_div_r; lra. }
    destruct (Q.max_spec 10 (c + 5)) as [[? ->]|[? ->]]; lra.
  - intros Hp. rewrite Hd.
    assert (Hc : 5 < c).
    { apply Math_ceil_gt_5. apply Qlt_shift_div_l; lra. }
    destruct (Q.max_spec 10 (c + 5)) as [[? ->]|[? ->]]; lra.
Qed.

Lemma record_KnowLoc (c : ConsolidatedResult) :
  prop (record_of_consolidated c) "KnowLoc" = VBool (KnowLoc c).
Proof. destruct c as [k u [a|] [b|] [m|] v]; reflexivity. Qed.

(** X8. Reading back the record the builder stores under
    [consolidatedResult]: [KnowLoc], [verified] and [KnowLocUncertainty]
    are the evidence's values, an IP source reads as its boolean when the
    evidence has it and as [undefined] otherwise, and the evaluator's
    loop over the three sources counts the sources that are present and,
    among them, those that are [true]. *)
Theorem consolidated_record_roundtrip (c : ConsolidatedResult) :
  let record := record_of_consolidated c in
  let source := fun o : option bool =>
                  match o with Some b => VBool b | None => VUndefined end in
  let present := omap (fun o => o) [ipapi_co c; ipregistry c; maxmind c] in
  prop record "KnowLoc" = VBool (KnowLoc c)
  /\ prop record "verified" = VBool (verified c)
  /\ prop record "KnowLocUncertainty" = VNum (KnowLocUncertainty c)
  /\ prop record "ipapi.co" = source (ipapi_co c)
  /\ prop record "ipregistry" = source (ipregistry c)
  /\ prop record "maxmind" = source (maxmind c)
  /\ count_sources record
     = (Z.of_nat (length (List.filter (fun b => b) present)),
        Z.of_nat (length present)).
Proof.
  destruct c as [k u [a|] [b|] [m|] v]; cbn zeta;
    repeat split; try reflexivity;
    try (destruct a); try (destruct b); try (destruct m); reflexivity.
Qed.

(** X9. A stamp fresh from the pipeline does not verify as it is: it
    embeds no challenge evidence and has no wrapper signature, so the
    verifier reports [signaturesValid = false] with [noSignatures].  Its
    structure is valid exactly when the evidence has a non-empty [id],
    and its signals are consistent exactly when the prover's claimed
    coordinates are in range. *)
Theorem fresh_stamp_verification (e : WitnessChainChallengeResult) (w : World) :
  exists stamp r,
    pipeline e w = Ok stamp
    /\ verifyWitnessChainStamp stamp = Ok r
    /\ signaturesValid r = false
    /\ valid r = false
    /\ details r !! "noSignatures" = Some (VBool true)
    /\ (structureValid r = true <-> id e <> "")
    /\ (signalsConsistent r = true
        <-> (-180 <= longitude (claims e) /\ longitude (claims e) <= 180)
            /\ (-90 <= latitude (claims e) /\ latitude (claims e) <= 90)).
Proof.
  eexists. eexists.
  split; [unfold pipeline, andThen, signalsFromChallengeResult,
            createWitnessChainStamp, pure; cbn; reflexivity |].
  split; [apply verifyWitnessChainStamp_run |].
  cbn [signaturesValid valid details structureValid signalsConsistent].
  split; [reflexivity |]. split; [reflexivity |]. split; [| split].
  - unfold verify_writes. cbn [challenge_signature_writes signals challengeResult
      createWitnessChainStamp signalsFromChallengeResult].
    change (stamp_signatures_writes _) with [("noSignatures", VBool true)].
    change (challenge_signature_writes _) with (@nil (string * jsval)).
    cbn [app]. apply details_of_last. apply signal_key_absent. absent_key.
  - unfold structure_ok, missing_challenge_data. cbn.
    destruct (bool_decide (id e = "")) eqn:E; cbn.
    + apply bool_decide_eq_true in E. split; [discriminate | tauto].
    + apply bool_decide_eq_false in E. tauto.
  - unfold signals_ok, consolidated_ok. cbn.
    rewrite record_KnowLoc. cbn. rewrite andb_true_r.
    unfold longitude_ok, latitude_ok.
    rewrite andb_true_iff, !negb_true_iff, !orb_false_iff, !Qltb_ge. tauto.
Qed.

End CreateTheorems.

(** The fixture in a process five hours behind UTC: its start time
    names its offset and is read as noon UTC all the same. *)
Lemma created_window_witness :
  exists stamp footprint,
    createWitnessChainStamp (host := in_zone (-300) sample_host)
      {| rs_plugin := "witnesschain"; rs_timestamp := 1768478400;
         rs_data := {| data_challengeResult := Some challenge_fixture;
                       data_proverClaims := None; data_proverId := None |} |}
      sample_world = Ok stamp
    /\ temporalFootprint stamp = Some footprint
    /\ tw_start footprint <= 1768478400000 / 1000
    /\ tw_end footprint - tw_start footprint == 10.
Proof.
  destruct (created_window sample_host (iso_getTime (-300))
              {| rs_plugin := "witnesschain"; rs_timestamp := 1768478400;
                 rs_data := {| data_challengeResult := Some challenge_fixture;
                               data_proverClaims := None; data_proverId := None |} |}
              challenge_fixture sample_world 1768478400000 eq_refl)
    as (stamp & footprint & Hs & Hf & Hlo & _ & _ & _ & _ & Hten & _);
    [vm_compute; reflexivity |].
  exists stamp, footprint.
  split; [exact Hs |]. split; [exact Hf |]. split; [exact Hlo |].
  apply Hten. vm_compute. discriminate.
Defined.

(** ** Verification *)

Section VerifyMore.
Context `{host : Host}.

Lemma recovery_ok_iff msg sigv declared :
  recovery_ok (recovery msg sigv declared) = true
  <-> exists recovered,
        verifyMessage msg sigv = Ok recovered
        /\ toLowerCase recovered = toLowerCase declared.
Proof.
  unfold recovery. destruct (verifyMessage msg sigv) as [r|e].
  - destruct (bool_decide (toLowerCase r = toLowerCase declared)) eqn:E; cbn.
    + apply bool_decide_eq_true in E. split; [intros _; eauto | reflexivity].
    + apply bool_decide_eq_false in E. split; [discriminate |].
      intros (r' & [= <-] & H). contradiction.
  - cbn. split; [discriminate | intros (r' & H & _); discriminate].
Qed.

Lemma wrappers_ok_iff stamp sigs :
  wrappers_ok stamp sigs = true
  <-> forall sig, sig ∈ sigs -> wrapper_verifies stamp sig.
Proof.
  unfold wrappers_ok. rewrite forallb_forall. split.
  - intros H sig Hin. apply recovery_ok_iff, H, list_elem_of_In, Hin.
  - intros H sig Hin. apply recovery_ok_iff, H, list_elem_of_In, Hin.
Qed.

(** X10. [signaturesValid] is true exactly when the embedded challenge
    signature, if there is one, recovers to the declared challenger,
    every wrapper signature recovers to its declared signer (both up to
    letter case), and the stamp has an embedded challenge or at least
    one wrapper signature. *)
Theorem signaturesValid_iff (stamp : Stamp) :
  exists r,
    verifyWitnessChainStamp stamp = Ok r
    /\ (signaturesValid r = true
        <-> (forall c, challengeResult (signals stamp) = Some c ->
                       embedded_verifies c)
            /\ (forall sigs sig, signatures stamp = Some sigs -> sig ∈ sigs ->
                                 wrapper_verifies stamp sig)
            /\ (challengeResult (signals stamp) = None ->
                exists sig rest, signatures stamp = Some (sig :: rest))).
Proof.
  eexists. split; [apply verifyWitnessChainStamp_run |]. cbn [signaturesValid].
  rewrite andb_true_iff.
  unfold challenge_signature_ok, stamp_signatures_ok, challenge_recovery.
  destruct (challengeResult (signals stamp)) as [c|];
    destruct (signatures stamp) as [[|sig rest]|]; cbn [is_absent negb];
    rewrite ?recovery_ok_iff, ?wrappers_ok_iff.
  - split.
    + intros [Hc _]. repeat split.
      * intros c' [= <-]. exact Hc.
      * intros sigs s [= <-] Hs. apply elem_of_nil in Hs. contradiction.
      * discriminate.
    + intros (Hc & _ & _). split; [apply Hc; reflexivity | reflexivity].
  - split.
    + intros [Hc Hw]. repeat split.
      * intros c' [= <-]. exact Hc.
      * intros sigs s [= <-] Hs. apply Hw, Hs.
      * discriminate.
    + intros (Hc & Hw & _). split; [apply Hc; reflexivity |].
      intros s Hs. eapply Hw; [reflexivity | exact Hs].
  - split.
    + intros [Hc _]. repeat split.
      * intros c' [= <-]. exact Hc.
      * discriminate.
      * discriminate.
    + intros (Hc & _ & _). split; [apply Hc; reflexivity | reflexivity].
  - split; [intros [_ H]; discriminate |].
    intros (_ & _ & H). destruct (H eq_refl) as (s & r & Hs). discriminate.
  - split.
    + intros [_ Hw]. repeat split.
      * discriminate.
      * intros sigs s [= <-] Hs. apply Hw, Hs.
      * intros _. eauto.
    + intros (_ & Hw & _). split; [reflexivity |].
      intros s Hs. eapply Hw; [reflexivity | exact Hs].
  - split; [intros [_ H]; discriminate |].
    intros (_ & _ & H). destruct (H eq_refl) as (s & r & Hs). discriminate.
Qed.

(** X11. [structureValid] is true exactly when [lpVersion] is ["0.2"],
    [plugin] is ["witnesschain"], the location is truthy, the temporal
    footprint is present and, unless the challenge evidence is embedded,
    [signals.challengeId] is truthy and [signals.challengeSucceeded] is
    defined; [valid] is the conjunction of the three flags. *)
Theorem structureValid_iff (stamp : Stamp) :
  exists r,
    verifyWitnessChainStamp stamp = Ok r
    /\ (structureValid r = true
        <-> lpVersion stamp = "0.2"
            /\ plugin stamp = "witnesschain"
            /\ falsy_location (location stamp) = false
            /\ temporalFootprint stamp <> None
            /\ (challengeResult (signals stamp) = None ->
                falsy_string (challengeId (signals stamp)) = false
                /\ challengeSucceeded (signals stamp) <> None))
    /\ (valid r = true
        <-> signaturesValid r = true /\ structureValid r = true
            /\ signalsConsistent r = true).
Proof.
  eexists. split; [apply verifyWitnessChainStamp_run |].
  cbn [structureValid valid signaturesValid signalsConsistent]. split.
  - unfold structure_ok, missing_challenge_data.
    rewrite !andb_true_iff, !bool_decide_eq_true, !negb_true_iff,
      orb_false_iff, andb_false_iff, orb_false_iff.
    destruct (challengeResult (signals stamp)) as [c|];
      destruct (temporalFootprint stamp) as [tf|];
      destruct (challengeSucceeded (signals stamp)) as [b|];
      cbn [is_absent]; intuition (try discriminate; try congruence).
  - rewrite !andb_true_iff. tauto.
Qed.

Lemma details_of_snoc l x : details_of (l ++ [x]) = assign (details_of l) x.
Proof. unfold details_of. rewrite foldl_app. reflexivity. Qed.

(** A key that the earlier assignments do not write reads as the later
    assignments leave it. *)
Lemma details_of_app_r pre post k :
  k ∉ keys pre -> details_of (pre ++ post) !! k = details_of post !! k.
Proof.
  intros Hpre. induction post as [|[k' v] post IH] using rev_ind.
  - rewrite app_nil_r. rewrite details_of_None by exact Hpre. reflexivity.
  - rewrite app_assoc, !details_of_snoc. unfold assign. cbn.
    destruct (decide (k' = k)) as [->|Hne].
    + rewrite !lookup_insert_eq. reflexivity.
    + rewrite !lookup_insert_ne by exact Hne. exact IH.
Qed.

(** The keys of the signal checks are read off the signal checks. *)
Lemma signal_phase_lookup stamp k :
  k ∈ signal_keys ->
  details_of (verify_writes stamp) !! k = details_of (signal_writes stamp) !! k.
Proof.
  intros Hk. unfold verify_writes. rewrite !app_assoc.
  apply details_of_app_r. rewrite <- app_assoc.
  assert (Hnot : forall K : list string,
            bool_decide (Forall (fun k' => k' ∉ K) signal_keys) = true -> k ∉ K).
  { intros K HK. apply bool_decide_eq_true in HK.
    rewrite Forall_forall in HK. apply HK, Hk. }
  apply not_elem_of_app_keys; [| apply not_elem_of_app_keys].
  - apply structure_key_absent, Hnot. vm_compute. reflexivity.
  - apply challenge_key_absent, Hnot. vm_compute. reflexivity.
  - apply stamp_signatures_key_absent, Hnot. vm_compute. reflexivity.
Qed.

Lemma signal_writes_coordinates stamp lon lat :
  location stamp = LocGeo lon lat ->
  details_of (signal_writes stamp) !! "invalidLongitude"
  = (if longitude_ok lon then None else Some (VNum lon))
  /\ details_of (signal_writes stamp) !! "invalidLatitude"
     = (if latitude_ok lat then None else Some (VNum lat)).
Proof.
  intros Hloc. unfold signal_writes, coordinates_writes. rewrite Hloc.
  destruct (longitude_ok lon); destruct (latitude_ok lat);
    destruct (bool_decide (challengeSucceeded (signals stamp) = Some false));
    destruct (consolidated_ok stamp); split; reflexivity.
Qed.

(** X12. Coordinate bounds.  For a stamp with point coordinates
    [[lon, lat]], a longitude outside [[-180, 180]] is recorded under
    [invalidLongitude] and a latitude outside [[-90, 90]] under
    [invalidLatitude], each with the offending value and each making
    [signalsConsistent] false; a coordinate in range leaves no such
    diagnostic, and when [signalsConsistent] is true both coordinates
    are in range. *)
Theorem coordinate_bounds (stamp : Stamp) (lon lat : Q) :
  location stamp = LocGeo lon lat ->
  exists r,
    verifyWitnessChainStamp stamp = Ok r
    /\ (lon < -180 \/ 180 < lon ->
        signalsConsistent r = false
        /\ details r !! "invalidLongitude" = Some (VNum lon))
    /\ (lat < -90 \/ 90 < lat ->
        signalsConsistent r = false
        /\ details r !! "invalidLatitude" = Some (VNum lat))
    /\ (signalsConsistent r = true ->
        (-180 <= lon /\ lon <= 180) /\ (-90 <= lat /\ lat <= 90))
    /\ (-180 <= lon /\ lon <= 180 -> details r !! "invalidLongitude" = None)
    /\ (-90 <= lat /\ lat <= 90 -> details r !! "invalidLatitude" = None).
Proof.
  intros Hloc. eexists. split; [apply verifyWitnessChainStamp_run |].
  cbn [signalsConsistent details].
  assert (Hlon : longitude_ok lon = true <-> -180 <= lon /\ lon <= 180).
  { unfold longitude_ok. rewrite negb_true_iff, orb_false_iff, !Qltb_ge. tauto. }
  assert (Hlat : latitude_ok lat = true <-> -90 <= lat /\ lat <= 90).
  { unfold latitude_ok. rewrite negb_true_iff, orb_false_iff, !Qltb_ge. tauto. }
  rewrite !signal_phase_lookup
    by (apply (bool_decide_unpack _); vm_compute; reflexivity).
  destruct (signal_writes_coordinates stamp lon lat Hloc) as [-> ->].
  unfold signals_ok, coordinates_ok. rewrite Hloc.
  destruct (longitude_ok lon) eqn:Elon; destruct (latitude_ok lat) eqn:Elat;
    cbn [andb];
    (split; [| split; [| split; [| split]]]); intros H;
    try (split; reflexivity); try reflexivity; try discriminate;
    try (split; [apply Hlon | apply Hlat]; reflexivity);
    try (assert (Hl : -180 <= lon /\ lon <= 180) by (apply Hlon; reflexivity));
    try (assert (Hl' : -90 <= lat /\ lat <= 90) by (apply Hlat; reflexivity));
    try (exfalso; lra);
    try (apply Hlon in H; discriminate); try (apply Hlat in H; discriminate).
Qed.

(** X13. The diagnostics of the verifier come from a fixed vocabulary of
    fifteen keys: whatever the stamp, every key of the returned [details]
    is one of them. *)
Theorem details_vocabulary (stamp : Stamp) :
  exists r,
    verifyWitnessChainStamp stamp = Ok r
    /\ forall k, is_Some (details r !! k) ->
         k ∈ ["lpVersionError"; "pluginMismatch"; "missingFields";
              "missingChallengeData"; "challengeSignatureMismatch";
              "challengeSignerVerified"; "recoveredAddress";
              "challengeSignatureError"; "stampSignatureMismatch";
              "stampSignatureError"; "noSignatures"; "invalidLongitude";
              "invalidLatitude"; "challengeFailed"; "invalidConsolidatedResult"].
Proof.
  eexists. split; [apply verifyWitnessChainStamp_run |]. cbn [details].
  intros k [v Hv]. apply details_of_Some_key in Hv.
  unfold verify_writes in Hv. rewrite !keys_app, !elem_of_app in Hv.
  destruct Hv as [H | [H | [H | H]]].
  - apply (elem_of_sublist _ _ _ H). etransitivity;
      [apply structure_writes_keys |]. unfold structure_keys. sublist_keys.
  - apply (elem_of_sublist _ _ _ H). etransitivity;
      [apply challenge_signature_writes_keys |]. unfold challenge_keys.
    sublist_keys.
  - destruct (decide (k ∈ "noSignatures" :: loop_keys)) as [Hin | Hout].
    + unfold loop_keys in Hin.
      repeat (apply elem_of_cons in Hin as [-> | Hin];
              [apply (bool_decide_unpack _); vm_compute; reflexivity |]).
      apply elem_of_nil in Hin. contradiction.
    + exfalso. eapply stamp_signatures_key_absent; eassumption.
  - apply (elem_of_sublist _ _ _ H). etransitivity;
      [apply signal_writes_keys |]. unfold signal_keys. sublist_keys.
Qed.

Lemma wrappers_same (stamp stamp' : Stamp) (sigs sigs' : list Signature) :
  without_signatures stamp' = without_signatures stamp ->
  Forall2 (fun s s' =>
             sig_value s = sig_value s'
             /\ subject_value (sig_signer s) = subject_value (sig_signer s'))
          sigs sigs' ->
  wrappers_ok stamp' sigs' = wrappers_ok stamp sigs
  /\ wrappers_writes stamp' sigs' = wrappers_writes stamp sigs.
Proof.
  intros Hu Hall.
  induction Hall as [|s s' l l' [Hv Ha] _ [IHok IHws]]; [split; reflexivity |].
  assert (Hrec : wrapper_recovery stamp' s' = wrapper_recovery stamp s).
  { unfold wrapper_recovery. rewrite Hu, Hv, Ha. reflexivity. }
  split.
  - cbn. rewrite Hrec. f_equal. exact IHok.
  - rewrite !wrappers_writes_cons. unfold wrapper_writes.
    rewrite Hrec, Ha, IHws. reflexivity.
Qed.

(** X14. The verifier never looks at the algorithm tag, the timestamp or
    the signer scheme of a wrapper signature: replacing the wrapper
    signatures by ones with the same values and the same signer
    addresses leaves the whole result unchanged. *)
Theorem wrapper_tags_ignored (stamp : Stamp) (sigs sigs' : list Signature) :
  signatures stamp = Some sigs ->
  Forall2 (fun s s' =>
             sig_value s = sig_value s'
             /\ subject_value (sig_signer s) = subject_value (sig_signer s'))
          sigs sigs' ->
  verifyWitnessChainStamp (spread_with_signatures stamp sigs')
  = verifyWitnessChainStamp stamp.
Proof.
  intros Hs Hall. rewrite !verifyWitnessChainStamp_run.
  destruct (wrappers_same stamp (spread_with_signatures stamp sigs') sigs sigs'
              eq_refl Hall) as [Hok Hws].
  assert (Hsok : stamp_signatures_ok (spread_with_signatures stamp sigs')
                 = stamp_signatures_ok stamp).
  { unfold stamp_signatures_ok. cbn [signatures spread_with_signatures signals].
    rewrite Hs. destruct Hall; [reflexivity | exact Hok]. }
  assert (Hsws : stamp_signatures_writes (spread_with_signatures stamp sigs')
                 = stamp_signatures_writes stamp).
  { unfold stamp_signatures_writes.
    cbn [signatures spread_with_signatures signals].
    rewrite Hs. destruct Hall; [reflexivity | exact Hws]. }
  unfold verify_writes. rewrite Hsok, Hsws. reflexivity.
Qed.

(** X15. A failed challenge is a warning, not a failure: the verifier
    records [challengeFailed = true] exactly when the success flag is
    false, and the structure and signal verdicts are those of the
    otherwise-identical stamp whose flag is true. *)
Theorem failed_challenge_is_a_warning (stamp : Stamp) :
  challengeSucceeded (signals stamp) = Some false ->
  exists r r_ok,
    verifyWitnessChainStamp stamp = Ok r
    /\ verifyWitnessChainStamp (with_challengeSucceeded true stamp) = Ok r_ok
    /\ details r !! "challengeFailed" = Some (VBool true)
    /\ details r_ok !! "challengeFailed" = None
    /\ structureValid r = structureValid r_ok
    /\ signalsConsistent r = signalsConsistent r_ok.
Proof.
  intros Hfail. eexists. eexists.
  split; [apply verifyWitnessChainStamp_run |].
  split; [apply verifyWitnessChainStamp_run |].
  cbn [details structureValid signalsConsistent].
  rewrite !signal_phase_lookup
    by (apply (bool_decide_unpack _); vm_compute; reflexivity).
  split; [| split; [| split]].
  - unfold signal_writes. rewrite Hfail.
    rewrite (bool_decide_eq_true_2 (Some false = Some false)) by reflexivity.
    destruct (location stamp) as [|s|lon lat|]; cbn [coordinates_writes];
      try (destruct (longitude_ok lon); destruct (latitude_ok lat));
      destruct (consolidated_ok stamp); reflexivity.
  - unfold signal_writes.
    cbn [with_challengeSucceeded signals challengeSucceeded location].
    rewrite (bool_decide_eq_false_2 (Some true = Some false)) by discriminate.
    change (consolidated_ok (with_challengeSucceeded true stamp))
      with (consolidated_ok stamp).
    destruct (location stamp) as [|s|lon lat|]; cbn [coordinates_writes];
      try (destruct (longitude_ok lon); destruct (latitude_ok lat));
      destruct (consolidated_ok stamp); reflexivity.
  - unfold structure_ok, missing_challenge_data.
    cbn [with_challengeSucceeded signals challengeSucceeded location lpVersion
         plugin temporalFootprint challengeResult challengeId].
    rewrite Hfail. reflexivity.
  - reflexivity.
Qed.

Lemma without_spread_unsigned (stamp : Stamp) (sigs : list Signature) :
  signatures stamp = None ->
  without_signatures (spread_with_signatures stamp sigs) = stamp.
Proof. destruct stamp. cbn. intros ->. reflexivity. Qed.

(** X16. Round trip of [sign] and the verifier.  When an unsigned stamp
    is signed and the host recovers, from the serialized stamp and the
    signature the signer returned, the signer's declared address (up to
    letter case), the verifier finds no fault with the wrapper signature
    of the signed stamp: no [stampSignatureMismatch], [stampSignatureError]
    or [noSignatures] diagnostic, and [signaturesValid] is true exactly
    when the embedded challenge signature, if any, verifies. *)
Theorem sign_then_verify (σ : Store) (ref : nat) (k : StampSigner) (w : World)
  (stamp : Stamp) (sigValue recovered : string) :
  σ !! ref = Some stamp ->
  signatures stamp = None ->
  signer_sign k (JSON_stringify stamp) = Ok sigValue ->
  verifyMessage (JSON_stringify stamp) sigValue = Ok recovered ->
  toLowerCase recovered = toLowerCase (subject_value (signer k)) ->
  exists ref' σ' signed r,
    sign σ ref k w = Ok (ref', σ')
    /\ σ' !! ref' = Some signed
    /\ verifyWitnessChainStamp signed = Ok r
    /\ (signaturesValid r = true
        <-> forall c, challengeResult (signals stamp) = Some c ->
                      embedded_verifies c)
    /\ details r !! "stampSignatureMismatch" = None
    /\ details r !! "stampSignatureError" = None
    /\ details r !! "noSignatures" = None.
Proof.
  intros Href Hunsigned Hsign Hrec Hsame.
  unfold sign, andThen, await, Date_now, pure, alloc. rewrite Href, Hsign.
  eexists. eexists. eexists. eexists. split; [reflexivity |].
  split; [rewrite lookup_app_r by reflexivity; rewrite Nat.sub_diag; reflexivity |].
  split; [apply verifyWitnessChainStamp_run |].
  cbn [signaturesValid details].
  set (sig := {| sig_signer := signer k; sig_algorithm := algorithm k;
                 sig_value := sigValue;
                 sig_timestamp := Math_floor (clock_ms w / 1000) |}).
  set (signed := spread_with_signatures stamp [sig]).
  assert (Hwr : wrapper_recovery signed sig = Matches recovered).
  { unfold wrapper_recovery, signed, recovery.
    rewrite without_spread_unsigned by exact Hunsigned. cbn [sig_value sig].
    rewrite Hrec. cbn [sig_signer sig].
    rewrite bool_decide_eq_true_2 by exact Hsame. reflexivity. }
  assert (Hok : stamp_signatures_ok signed = true).
  { unfold stamp_signatures_ok. cbn. rewrite Hwr. reflexivity. }
  assert (Hws : stamp_signatures_writes signed = []).
  { unfold stamp_signatures_writes. cbn. unfold wrapper_writes.
    rewrite Hwr. reflexivity. }
  assert (Hnone : forall key, key ∉ structure_keys -> key ∉ challenge_keys ->
            key ∉ signal_keys -> details_of (verify_writes signed) !! key = None).
  { intros key H1 H2 H3. apply details_of_None. unfold verify_writes.
    rewrite Hws. cbn [app].
    apply not_elem_of_app_keys; [| apply not_elem_of_app_keys].
    - apply structure_key_absent, H1.
    - apply challenge_key_absent, H2.
    - apply signal_key_absent, H3. }
  split; [| split; [| split]]; try (apply Hnone; absent_key).
  rewrite Hok, andb_true_r. unfold challenge_signature_ok.
  change (challengeResult (signals signed)) with (challengeResult (signals stamp)).
  destruct (challengeResult (signals stamp)) as [c|].
  - unfold challenge_recovery. rewrite recovery_ok_iff. split.
    + intros H c' [= <-]. exact H.
    + intros H. apply H. reflexivity.
  - split; [intros _ c' Hc'; discriminate | reflexivity].
Qed.

End VerifyMore.

(** *** Verification on the sample inputs *)

Lemma signaturesValid_iff_witness :
  exists r,
    verifyWitnessChainStamp (host := sample_host) countersigned_stamp = Ok r
    /\ signaturesValid r = true.
Proof.
  destruct (signaturesValid_iff (host := sample_host) countersigned_stamp)
    as (r & Hr & Hiff).
  exists r. split; [exact Hr |]. apply Hiff. split; [| split].
  - intros c Hc. discriminate Hc.
  - intros sigs sig [= <-] Hin.
    apply list_elem_of_singleton in Hin as ->.
    exists "0xAAA1". split; reflexivity.
  - intros _. eexists. eexists. reflexivity.
Defined.

Lemma structureValid_iff_witness :
  exists r,
    verifyWitnessChainStamp (host := sample_host) failed_stamp = Ok r
    /\ structureValid r = true.
Proof.
  destruct (structureValid_iff (host := sample_host) failed_stamp)
    as (r & Hr & Hiff & _).
  exists r. split; [exact Hr |]. apply Hiff.
  repeat split; try reflexivity; discriminate.
Defined.

Lemma coordinate_bounds_witness :
  exists r,
    verifyWitnessChainStamp (host := sample_host) off_globe_stamp = Ok r
    /\ signalsConsistent r = false
    /\ details r !! "invalidLongitude" = Some (VNum 200)
    /\ details r !! "invalidLatitude" = Some (VNum (-91)).
Proof.
  destruct (coordinate_bounds (host := sample_host) off_globe_stamp 200 (-91) eq_refl)
    as (r & Hr & Hlon & Hlat & _).
  exists r. split; [exact Hr |].
  destruct Hlon as [Hsc Hdlon]; [right; reflexivity |].
  destruct Hlat as [_ Hdlat]; [left; reflexivity |].
  repeat split; assumption.
Defined.

Lemma details_vocabulary_witness :
  exists r,
    verifyWitnessChainStamp (host := sample_host) twice_missigned_stamp = Ok r
    /\ "stampSignatureMismatch"
       ∈ ["lpVersionError"; "pluginMismatch"; "missingFields";
          "missingChallengeData"; "challengeSignatureMismatch";
          "challengeSignerVerified"; "recoveredAddress";
          "challengeSignatureError"; "stampSignatureMismatch";
          "stampSignatureError"; "noSignatures"; "invalidLongitude";
          "invalidLatitude"; "challengeFailed"; "invalidConsolidatedResult"].
Proof.
  destruct (details_vocabulary (host := sample_host) twice_missigned_stamp)
    as (r & Hr & Hvoc).
  exists r. split; [exact Hr |]. apply Hvoc.
  rewrite verifyWitnessChainStamp_run in Hr. injection Hr as <-.
  vm_compute. eauto.
Defined.

Lemma wrapper_tags_ignored_witness :
  verifyWitnessChainStamp (host := sample_host)
    (spread_with_signatures countersigned_stamp
       [ {| sig_signer := {| scheme := "did"; subject_value := "0xaaa1" |};
            sig_algorithm := "ed25519";
            sig_value := "0xAAA1";
            sig_timestamp := 0 |} ])
  = verifyWitnessChainStamp (host := sample_host) countersigned_stamp.
Proof.
  apply (wrapper_tags_ignored (host := sample_host) countersigned_stamp
           [wrapper "0xaaa1" "0xAAA1"]); [reflexivity |].
  repeat constructor.
Defined.

Lemma failed_challenge_is_a_warning_witness :
  exists r,
    verifyWitnessChainStamp (host := sample_host) countersigned_stamp = Ok r
    /\ details r !! "challengeFailed" = Some (VBool true)
    /\ valid r = true.
Proof.
  destruct (failed_challenge_is_a_warning (host := sample_host) countersigned_stamp
              eq_refl) as (r & _ & Hr & _ & Hd & _).
  exists r. split; [exact Hr |]. split; [exact Hd |].
  rewrite verifyWitnessChainStamp_run in Hr. injection Hr as <-.
  vm_compute. reflexivity.
Defined.

Lemma sign_then_verify_witness :
  exists ref' σ' signed r,
    sign (host := sample_host) [failed_stamp] 0 (sample_signer "0xccc3") sample_world
    = Ok (ref', σ')
    /\ σ' !! ref' = Some signed
    /\ verifyWitnessChainStamp (host := sample_host) signed = Ok r
    /\ signaturesValid r = true.
Proof.
  destruct (sign_then_verify (host := sample_host) [failed_stamp] 0
              (sample_signer "0xccc3") sample_world failed_stamp "0xccc3" "0xccc3")
    as (ref' & σ' & signed & r & Hs & Hl & Hr & Hiff & _); try reflexivity.
  exists ref', σ', signed, r. repeat split; try assumption.
  apply Hiff. intros c Hc. discriminate Hc.
Defined.

(** ** Evaluation *)

(** X17. The temporal overlap ratio does not depend on the order of the
    two windows: the evaluator's temporal component is the same when the
    stamp's and the claim's window are exchanged. *)
Theorem temporalOverlap_symmetric (a b : TimeWindow) :
  temporalOverlap a b == temporalOverlap b a.
Proof.
  unfold temporalOverlap.
  assert (Hs : Qmax (tw_start a) (tw_start b) == Qmax (tw_start b) (tw_start a))
    by apply Q.max_comm.
  assert (He : Qmin (tw_end a) (tw_end b) == Qmin (tw_end b) (tw_end a))
    by apply Q.min_comm.
  assert (Hd : Qmin (tw_end a - tw_start a) (tw_end b - tw_start b)
               == Qmin (tw_end b - tw_start b) (tw_end a - tw_start a))
    by apply Q.min_comm.
  assert (Hle : Qle_bool (Qmin (tw_end a) (tw_end b))
                         (Qmax (tw_start a) (tw_start b))
                = Qle_bool (Qmin (tw_end b) (tw_end a))
                           (Qmax (tw_start b) (tw_start a))).
  { destruct (Qle_bool (Qmin (tw_end b) (tw_end a))
                        (Qmax (tw_start b) (tw_start a))) eqn:E.
    - apply Qle_bool_iff. apply Qle_bool_iff in E. lra.
    - apply Qle_bool_false. apply Qle_bool_false in E. lra. }
  assert (Hlt : Qltb 0 (Qmin (tw_end a - tw_start a) (tw_end b - tw_start b))
                = Qltb 0 (Qmin (tw_end b - tw_start b) (tw_end a - tw_start a))).
  { destruct (Qltb 0 (Qmin (tw_end b - tw_start b) (tw_end a - tw_start a)))
      eqn:E.
    - apply Qltb_lt. apply Qltb_lt in E. lra.
    - apply Qltb_ge. apply Qltb_ge in E. lra. }
  rewrite Hle, Hlt.
  destruct (Qle_bool (Qmin (tw_end b) (tw_end a))
                     (Qmax (tw_start b) (tw_start a))); [reflexivity |].
  destruct (Qltb 0 (Qmin (tw_end b - tw_start b) (tw_end a - tw_start a))) eqn:E;
    [| reflexivity].
  apply Qltb_lt in E. rewrite Hs, He, Hd. reflexivity.
Qed.

Lemma temporalOverlap_within (a b : TimeWindow) :
  tw_start b <= tw_start a -> tw_end a <= tw_end b -> tw_start a < tw_end a ->
  temporalOverlap a b == 1.
Proof.
  intros Hs He Hpos. rewrite temporalOverlap_ratio.
  - destruct (Q.max_spec (tw_start a) (tw_start b)) as [[? ->]|[? ->]];
    destruct (Q.min_spec (tw_end a) (tw_end b)) as [[? ->]|[? ->]];
    destruct (Q.min_spec (tw_end a - tw_start a) (tw_end b - tw_start b))
      as [[? Hm]|[? Hm]]; rewrite Hm; try (field; lra);
    try (assert (Hx : tw_start a == tw_start b) by lra);
    try (assert (Hy : tw_end a == tw_end b) by lra);
    try (exfalso; lra).
    all: try (rewrite ?Hx, ?Hy; field; lra).
    all: try (rewrite <- ?Hx, <- ?Hy; field; lra).
  - destruct (Q.max_spec (tw_start a) (tw_start b)) as [[? ->]|[? ->]];
    destruct (Q.min_spec (tw_end a) (tw_end b)) as [[? ->]|[? ->]]; lra.
  - destruct (Q.min_spec (tw_end a - tw_start a) (tw_end b - tw_start b))
      as [[? ->]|[? ->]]; lra.
Qed.

(** X18. A window of positive duration that lies within the other window
    overlaps it fully: the ratio is 1, on whichever side it is passed. *)
Theorem temporalOverlap_contained (a b : TimeWindow) :
  tw_start b <= tw_start a -> tw_end a <= tw_end b -> tw_start a < tw_end a ->
  temporalOverlap a b == 1 /\ temporalOverlap b a == 1.
Proof.
  intros Hs He Hpos. split; [apply temporalOverlap_within; assumption |].
  rewrite temporalOverlap_ratio.
  - destruct (Q.max_spec (tw_start b) (tw_start a)) as [[? ->]|[? ->]];
    destruct (Q.min_spec (tw_end b) (tw_end a)) as [[? ->]|[? ->]];
    destruct (Q.min_spec (tw_end b - tw_start b) (tw_end a - tw_start a))
      as [[? Hm]|[? Hm]]; rewrite Hm; try (field; lra);
    try (assert (Hx : tw_start a == tw_start b) by lra);
    try (assert (Hy : tw_end a == tw_end b) by lra);
    try (exfalso; lra).
    all: try (rewrite ?Hx, ?Hy; field; lra).
    all: try (rewrite <- ?Hx, <- ?Hy; field; lra).
  - destruct (Q.max_spec (tw_start b) (tw_start a)) as [[? ->]|[? ->]];
    destruct (Q.min_spec (tw_end b) (tw_end a)) as [[? ->]|[? ->]]; lra.
  - destruct (Q.min_spec (tw_end b - tw_start b) (tw_end a - tw_start a))
      as [[? ->]|[? ->]]; lra.
Qed.

Lemma temporalOverlap_contained_witness :
  temporalOverlap {| tw_start := 1768478400; tw_end := 1768478410 |}
                  {| tw_start := 1768478100; tw_end := 1768478700 |} == 1.
Proof.
  apply (temporalOverlap_contained
           {| tw_start := 1768478400; tw_end := 1768478410 |}
           {| tw_start := 1768478100; tw_end := 1768478700 |});
    cbn; lra.
Defined.

(** X19. For a positive effective radius and a non-negative distance the
    base spatial score lies in [[0, 1]]; it is 1 only at distance 0, and
    it is 0 exactly at the effective radius itself and from three radii
    on. *)
Theorem spatial_base_range (d r : Q) :
  0 < r -> 0 <= d ->
  (0 <= spatial_base d r /\ spatial_base d r <= 1)
  /\ (spatial_base d r == 1 <-> d == 0)
  /\ (spatial_base d r == 0 <-> d == r \/ r * 3 <= d).
Proof.
  intros Hr Hd.
  destruct (Qlt_le_dec r d) as [Hout | Hin].
  - rewrite !(spatial_base_outside r d Hout).
    assert (Hq : 0 < d / (r * 3)) by (apply Qlt_shift_div_l; lra).
    assert (Hq3 : d / (r * 3) < 1 <-> d < r * 3).
    { split; intros H.
      - apply (Qmult_lt_r _ _ (r * 3)) in H; [| lra].
        assert (E : d / (r * 3) * (r * 3) == d) by (field; lra). lra.
      - apply Qlt_shift_div_r; lra. }
    destruct (Q.max_spec 0 (1 - d / (r * 3))) as [[Hlt ->]|[Hge ->]].
    + assert (Hd3 : d < r * 3) by (apply Hq3; lra).
      repeat split; intros; try lra;
        try (match goal with H : _ \/ _ |- _ => destruct H; lra end).
    + assert (Hd3 : ~ d < r * 3) by (intros H; apply Hq3 in H; lra).
      repeat split; intros; try lra; right; lra.
  - rewrite !(spatial_base_inside r d Hin).
    assert (Hq : 0 <= d / r /\ d / r <= 1) by (apply Qdiv_bounds; lra).
    assert (Hz : d / r == 0 <-> d == 0).
    { split; intros H; [| rewrite H; field; lra].
      assert (E : d / r * r == d) by (field; lra). rewrite H in E. lra. }
    assert (Ho : d / r == 1 <-> d == r).
    { split; intros H; [| rewrite H; field; lra].
      assert (E : d / r * r == d) by (field; lra). rewrite H in E. lra. }
    repeat split; intros; try lra;
      try (match goal with H : _ \/ _ |- _ => destruct H end);
      try (apply Hz); try (left; apply Ho); try lra.
Qed.

Lemma spatial_base_range_witness :
  0 <= spatial_base 88956 100000 /\ spatial_base 88956 100000 <= 1.
Proof.
  apply (spatial_base_range 88956 100000); reflexivity || discriminate.
Defined.

Lemma count_sources_bounds (c : gmap string jsval) :
  (0 <= (count_sources c).1 <= (count_sources c).2)%Z
  /\ ((count_sources c).2 <= 3)%Z.
Proof.
  unfold count_sources. cbn [foldl]. unfold count_source.
  destruct (is_defined (prop c "ipapi.co")); destruct (is_true (prop c "ipapi.co"));
  destruct (is_defined (prop c "ipregistry"));
  destruct (is_true (prop c "ipregistry"));
  destruct (is_defined (prop c "maxmind")); destruct (is_true (prop c "maxmind"));
  cbn; lia.
Qed.

Lemma agreement_ratio_bounds (c : gmap string jsval) :
  (0 < (count_sources c).2)%Z ->
  0 <= inject_Z (count_sources c).1 / inject_Z (count_sources c).2 <= 1.
Proof.
  intros Hpos. destruct (count_sources_bounds c) as [[H0 H1] _].
  apply Qdiv_bounds.
  - change 0 with (inject_Z 0). rewrite <- Zle_Qle. exact H0.
  - rewrite <- Zle_Qle. exact H1.
  - change 0 with (inject_Z 0). rewrite <- Zlt_Qlt. exact Hpos.
Qed.

Lemma Qmin_bonus (x b : Q) :
  x <= 1 -> 0 <= b -> x <= Qmin 1 (x + b) /\ Qmin 1 (x + b) <= 1
                      /\ Qmin 1 (x + b) <= x + b.
Proof.
  intros Hx Hb. destruct (Q.min_spec 1 (x + b)) as [[? ->]|[? ->]]; lra.
Qed.

(** X20. The corroboration bonuses never lower a spatial score that is
    at most 1 and never raise it above 1 or by more than 0.2 in total
    (0.1 for the IP sources, 0.05 for [KnowLoc], 0.05 for [verified]);
    without a consolidated result the score is unchanged.  The loop over
    the IP sources counts at most three sources, and no more agreeing
    ones than sources. *)
Theorem bonuses_bounded (consolidated : option (gmap string jsval))
  (base : Q) (ds : list (string * jsval)) :
  base <= 1 ->
  let adjusted := (apply_bonuses consolidated (base, ds)).1 in
  base <= adjusted
  /\ adjusted <= 1
  /\ adjusted <= base + 0.2
  /\ (consolidated = None -> adjusted = base)
  /\ (forall c, consolidated = Some c ->
        (0 <= (count_sources c).1 <= (count_sources c).2)%Z
        /\ ((count_sources c).2 <= 3)%Z).
Proof.
  intros Hbase. cbn zeta. destruct consolidated as [c|]; cbn [apply_bonuses].
  - assert (Hip : base <= (ip_bonus c (base, ds)).1
                  /\ (ip_bonus c (base, ds)).1 <= 1
                  /\ (ip_bonus c (base, ds)).1 <= base + 0.1).
    { unfold ip_bonus. destruct (0 <? (count_sources c).2)%Z eqn:E; cbn [fst].
      - apply Z.ltb_lt in E. pose proof (agreement_ratio_bounds c E) as [R0 R1].
        set (ratio := inject_Z (count_sources c).1 / inject_Z (count_sources c).2)
          in *.
        destruct (Qmin_bonus base (ratio * 0.1)) as (A & B & C); lra.
      - lra. }
    set (s1 := ip_bonus c (base, ds)) in *.
    assert (Hk : s1.1 <= (knowLoc_bonus c s1).1
                 /\ (knowLoc_bonus c s1).1 <= 1
                 /\ (knowLoc_bonus c s1).1 <= s1.1 + 0.05).
    { unfold knowLoc_bonus. destruct (is_true (prop c "KnowLoc")); cbn [fst].
      - destruct (Qmin_bonus s1.1 0.05) as (A & B & C); lra.
      - lra. }
    set (s2 := knowLoc_bonus c s1) in *.
    assert (Hv : s2.1 <= (verified_bonus c s2).1
                 /\ (verified_bonus c s2).1 <= 1
                 /\ (verified_bonus c s2).1 <= s2.1 + 0.05).
    { unfold verified_bonus. destruct (is_true (prop c "verified")); cbn [fst].
      - destruct (Qmin_bonus s2.1 0.05) as (A & B & C); lra.
      - lra. }
    split; [lra |]. split; [lra |]. split; [lra |].
    split; [discriminate |].
    intros c' [= <-]. apply count_sources_bounds.
  - cbn [fst]. split; [lra |]. split; [lra |]. split; [lra |].
    split; [reflexivity | discriminate].
Qed.

Lemma bonuses_bounded_witness :
  let adjusted :=
    (apply_bonuses
       (Some (record_of_consolidated (consolidated_result challenge_fixture)))
       (0, [])).1 in
  0 <= adjusted /\ adjusted <= 0 + 0.2.
Proof.
  destruct (bonuses_bounded
              (Some (record_of_consolidated (consolidated_result challenge_fixture)))
              0 []) as (H1 & _ & H2 & _); [discriminate |].
  split; assumption.
Defined.

Lemma bonuses_bounds_aux (consolidated : option (gmap string jsval))
  (base : Q) (ds : list (string * jsval)) :
  base <= 1 ->
  base <= (apply_bonuses consolidated (base, ds)).1
  /\ (apply_bonuses consolidated (base, ds)).1 <= 1.
Proof.
  intros Hbase. destruct consolidated as [c|]; cbn [apply_bonuses fst]; [| lra].
  assert (Hip : base <= (ip_bonus c (base, ds)).1
                /\ (ip_bonus c (base, ds)).1 <= 1).
  { unfold ip_bonus. destruct (0 <? (count_sources c).2)%Z eqn:E; cbn [fst].
    - apply Z.ltb_lt in E. pose proof (agreement_ratio_bounds c E) as [R0 R1].
      set (ratio := inject_Z (count_sources c).1 / inject_Z (count_sources c).2)
        in *.
      destruct (Qmin_bonus base (ratio * 0.1)) as (A & B & C); lra.
    - lra. }
  set (s1 := ip_bonus c (base, ds)) in *.
  assert (Hk : s1.1 <= (knowLoc_bonus c s1).1 /\ (knowLoc_bonus c s1).1 <= 1).
  { unfold knowLoc_bonus. destruct (is_true (prop c "KnowLoc")); cbn [fst].
    - destruct (Qmin_bonus s1.1 0.05) as (A & B & C); lra.
    - lra. }
  set (s2 := knowLoc_bonus c s1) in *.
  assert (Hv : s2.1 <= (verified_bonus c s2).1 /\ (verified_bonus c s2).1 <= 1).
  { unfold verified_bonus. destruct (is_true (prop c "verified")); cbn [fst].
    - destruct (Qmin_bonus s2.1 0.05) as (A & B & C); lra.
    - lra. }
  lra.
Qed.

Section EvaluateMore.
Context `{host : Host}.


(** On arguments of the declared types neither test throws, and the
    received arguments are evaluated as the values they are. *)
Lemma evaluateWitnessChainStamp_on_declared (stamp : Stamp) (claim : LocationClaim) :
  evaluateWitnessChainStamp_on (Declared stamp) (Declared claim)
  = evaluateWitnessChainStamp stamp claim.
Proof.
  unfold evaluateWitnessChainStamp_on, evaluateWitnessChainStamp.
  cbn [runtime_location members].
  destruct (location stamp) as [|s|lon lat|]; try reflexivity.
  destruct (claim_location claim) as [|s|clon clat|]; reflexivity.
Qed.



Lemma spatial_base_01 (d r : Q) :
  0 < r -> 0 <= d -> 0 <= spatial_base d r /\ spatial_base d r <= 1.
Proof.
  intros Hr Hd. destruct (Qlt_le_dec r d) as [Hout | Hin].
  - rewrite !(spatial_base_outside r d Hout).
    assert (Hq : 0 < d / (r * 3)) by (apply Qlt_shift_div_l; lra).
    destruct (Q.max_spec 0 (1 - d / (r * 3))) as [[? ->]|[? ->]]; lra.
  - rewrite !(spatial_base_inside r d Hin).
    assert (Hq : 0 <= d / r /\ d / r <= 1) by (apply Qdiv_bounds; lra). lra.
Qed.

(** X23. For two points, a positive effective radius and a non-negative
    distance, the spatial component that the evaluator returns lies in
    [[0, 1]], bonuses included.  The radius itself is not checked: with a
    negative effective radius and no consolidated result the spatial
    component is at least 1. *)
Theorem evaluate_spatial_range (stamp : Stamp) (claim : LocationClaim)
  (lon lat clon clat : Q) (footprint : TimeWindow) :
  location stamp = LocGeo lon lat ->
  claim_location claim = LocGeo clon clat ->
  temporalFootprint stamp = Some footprint ->
  0 <= haversineDistance lat lon clat clon ->
  let effectiveRadius :=
    claim_radius claim + default 50 (knowLocUncertaintyKm (signals stamp)) * 1000 in
  exists r,
    evaluateWitnessChainStamp stamp claim = Ok r
    /\ (0 < effectiveRadius -> 0 <= spatial r /\ spatial r <= 1)
    /\ (effectiveRadius < 0 -> consolidatedResult (signals stamp) = None ->
        1 <= spatial r).
Proof.
  intros Hl Hc Hf Hd. cbn zeta. unfold evaluateWitnessChainStamp.
  rewrite Hl, Hc, Hf. eexists. split; [reflexivity |]. cbn [spatial].
  set (d := haversineDistance lat lon clat clon) in *.
  set (R := claim_radius claim
            + default 50 (knowLocUncertaintyKm (signals stamp)) * 1000).
  split.
  - intros HR. destruct (spatial_base_01 d R HR Hd) as [H0 H1].
    match goal with
    | |- context [apply_bonuses ?c (?b, ?ds)] =>
      pose proof (bonuses_bounds_aux c b ds H1) as (A & B)
    end. lra.
  - intros HR ->. cbn [apply_bonuses fst]. unfold spatial_base.
    assert (E : Qle_bool d R = false) by (apply Qle_bool_false; lra).
    rewrite E.
    assert (Hq : d / (R * 3) <= 0).
    { assert (Hn : 0 <= d / (- (R * 3))) by (apply Qle_shift_div_l; lra).
      assert (Eq : d / (R * 3) == - (d / (- (R * 3)))) by (field; lra). lra. }
    pose proof (Q.le_max_r 0 (1 - d / (R * 3))). lra.
Qed.

(** X24. Corroboration alone can carry a claim at any distance.  Take
    two points further apart than three effective radii, so that the
    base spatial score is 0.  If the consolidated result has [KnowLoc]
    and [verified] true and at least one agreeing IP source, the stamp's
    window lies within the claim's and the challenge did not fail, then
    the spatial component is the sum of the bonuses, between 0.1 and 0.2,
    and the evaluator supports the claim. *)
Theorem corroboration_alone_supports (stamp : Stamp) (claim : LocationClaim)
  (lon lat clon clat : Q) (footprint : TimeWindow) (c : gmap string jsval) :
  location stamp = LocGeo lon lat ->
  claim_location claim = LocGeo clon clat ->
  temporalFootprint stamp = Some footprint ->
  consolidatedResult (signals stamp) = Some c ->
  is_true (prop c "KnowLoc") = true ->
  is_true (prop c "verified") = true ->
  (0 < (count_sources c).1)%Z ->
  challengeSucceeded (signals stamp) <> Some false ->
  tw_start (claim_time claim) <= tw_start footprint ->
  tw_end footprint <= tw_end (claim_time claim) ->
  tw_start footprint < tw_end footprint ->
  let effectiveRadius :=
    claim_radius claim + default 50 (knowLocUncertaintyKm (signals stamp)) * 1000 in
  0 < effectiveRadius ->
  effectiveRadius * 3 <= haversineDistance lat lon clat clon ->
  exists r,
    evaluateWitnessChainStamp stamp claim = Ok r
    /\ supportsClaim r = true
    /\ 0.1 < spatial r /\ spatial r <= 0.2
    /\ 0.3 < score r.
Proof.
  intros Hl Hc Hf Hcons Hk Hv Hagree Hnofail Hs He Hpos. cbn zeta. intros HR Hfar.
  unfold evaluateWitnessChainStamp. rewrite Hl, Hc, Hf, Hcons.
  eexists. split; [reflexivity |]. cbn [supportsClaim spatial score].
  set (base := spatial_base (haversineDistance lat lon clat clon)
                 (claim_radius claim
                  + default 50 (knowLocUncertaintyKm (signals stamp)) * 1000)).
  assert (Hbase : base == 0) by (apply spatial_base_vanishes; assumption).
  pose proof (temporalOverlap_within footprint (claim_time claim) Hs He Hpos)
    as Ht.
  assert (Hpen : challenge_penalty stamp = 0).
  { unfold challenge_penalty.
    rewrite bool_decide_eq_false_2 by exact Hnofail. reflexivity. }
  rewrite Hpen.
  unfold apply_bonuses, verified_bonus, knowLoc_bonus, ip_bonus.
  rewrite Hk, Hv. cbn [fst snd].
  destruct (count_sources_bounds c) as [[_ Hle] _].
  assert (Htot : (0 <? (count_sources c).2)%Z = true) by (apply Z.ltb_lt; lia).
  rewrite Htot. cbn [fst snd].
  assert (Hratio : 0 < inject_Z (count_sources c).1 / inject_Z (count_sources c).2
                   /\ inject_Z (count_sources c).1 / inject_Z (count_sources c).2
                      <= 1).
  { split.
    - apply Qlt_shift_div_l.
      + change 0 with (inject_Z 0). rewrite <- Zlt_Qlt. lia.
      + change (0 * inject_Z (count_sources c).2) with (0 * inject_Z (count_sources c).2).
        assert (0 < inject_Z (count_sources c).1)
          by (change 0 with (inject_Z 0); rewrite <- Zlt_Qlt; lia). lra.
    - apply agreement_ratio_bounds. lia. }
  set (ratio := inject_Z (count_sources c).1 / inject_Z (count_sources c).2) in *.
  set (s1 := Qmin 1 (base + ratio * 0.1)).
  assert (H1 : s1 == ratio * 0.1).
  { unfold s1. destruct (Q.min_spec 1 (base + ratio * 0.1)) as [[? ->]|[? ->]]; lra. }
  set (s2 := Qmin 1 (s1 + 0.05)).
  assert (H2 : s2 == ratio * 0.1 + 0.05).
  { unfold s2. destruct (Q.min_spec 1 (s1 + 0.05)) as [[? ->]|[? ->]]; lra. }
  set (s3 := Qmin 1 (s2 + 0.05)).
  assert (H3 : s3 == ratio * 0.1 + 0.1).
  { unfold s3. destruct (Q.min_spec 1 (s2 + 0.05)) as [[? ->]|[? ->]]; lra. }
  set (t := temporalOverlap footprint (claim_time claim)) in *.
  set (sc := Qmax 0 (Qmin 1 (s3 * 0.65 + t * 0.35 - 0))).
  assert (Hsc : sc == s3 * 0.65 + 0.35).
  { unfold sc.
    destruct (Q.min_spec 1 (s3 * 0.65 + t * 0.35 - 0)) as [[? Hm]|[? Hm]];
      destruct (Q.max_spec 0 (Qmin 1 (s3 * 0.65 + t * 0.35 - 0)))
        as [[? HM]|[? HM]]; rewrite HM; try rewrite Hm; lra. }
  split; [| split; [lra | split; [lra | lra]]].
  rewrite andb3_true, !Qltb_lt. lra.
Qed.

Lemma apply_bonuses_writes (c : option (gmap string jsval)) (x : Q)
  (ds : list (string * jsval)) :
  exists extra,
    (apply_bonuses c (x, ds)).2 = ds ++ extra
    /\ forall k, k ∈ keys extra ->
         k ∈ ["ipSourcesAgreed"; "ipSourcesTotal"; "knowLocVerified";
              "consolidatedVerified"].
Proof.
  destruct c as [c|]; cbn [apply_bonuses].
  - unfold verified_bonus, knowLoc_bonus, ip_bonus.
    destruct (is_true (prop c "verified"));
      destruct (is_true (prop c "KnowLoc"));
      destruct (0 <? (count_sources c).2)%Z; cbn [fst snd];
      rewrite <- ?app_assoc;
      first [ eexists; split; [reflexivity |]
            | exists []; split; [symmetry; apply app_nil_r |] ];
      intros k Hk; cbn in Hk;
      repeat (apply elem_of_cons in Hk as [-> | Hk];
              [apply (bool_decide_unpack _); vm_compute; reflexivity |]);
      apply elem_of_nil in Hk; contradiction.
  - exists []. cbn. rewrite app_nil_r. split; [reflexivity |].
    intros k Hk. apply elem_of_nil in Hk. contradiction.
Qed.

(** X25. What the evaluator reports in [details] for two points: the
    distance rounded to the nearest metre, the effective radius
    [claim.radius + 1000 * uncertaintyKm] with the uncertainty it used
    (50 km when the stamp has none), the temporal component it returns,
    and the penalty 0.3 exactly when the challenge failed. *)
Theorem evaluate_details (stamp : Stamp) (claim : LocationClaim)
  (lon lat clon clat : Q) (footprint : TimeWindow) :
  location stamp = LocGeo lon lat ->
  claim_location claim = LocGeo clon clat ->
  temporalFootprint stamp = Some footprint ->
  let distance := haversineDistance lat lon clat clon in
  let km := default 50 (knowLocUncertaintyKm (signals stamp)) in
  exists r,
    evaluateWitnessChainStamp stamp claim = Ok r
    /\ cv_details r !! "distanceMeters" = Some (VNum (Math_round distance))
    /\ (distance - (1#2) < Math_round distance
        /\ Math_round distance <= distance + (1#2))
    /\ cv_details r !! "effectiveRadiusMeters"
       = Some (VNum (claim_radius claim + km * 1000))
    /\ cv_details r !! "knowLocUncertaintyKm" = Some (VNum km)
    /\ (knowLocUncertaintyKm (signals stamp) = None -> km = 50)
    /\ cv_details r !! "temporalOverlap" = Some (VNum (temporal r))
    /\ cv_details r !! "challengeFailedPenalty"
       = (if bool_decide (challengeSucceeded (signals stamp) = Some false)
          then Some (VNum 0.3) else None).
Proof.
  intros Hl Hc Hf. cbn zeta. unfold evaluateWitnessChainStamp.
  rewrite Hl, Hc, Hf. eexists. split; [reflexivity |].
  cbn [cv_details temporal].
  set (d := haversineDistance lat lon clat clon).
  set (km := default 50 (knowLocUncertaintyKm (signals stamp))).
  set (t := temporalOverlap footprint (claim_time claim)).
  match goal with
  | |- context [apply_bonuses ?c (?x, ?ds)] =>
    destruct (apply_bonuses_writes c x ds) as (extra & -> & Hextra)
  end.
  assert (Hx : forall k,
            k ∉ ["ipSourcesAgreed"; "ipSourcesTotal"; "knowLocVerified";
                 "consolidatedVerified"] -> k ∉ keys extra).
  { intros k Hk Hin. apply Hk, Hextra, Hin. }
  set (pen := if bool_decide (challengeSucceeded (signals stamp) = Some false)
              then [("challengeFailedPenalty", VNum (challenge_penalty stamp))]
              else []).
  assert (Hlist :
    (if bool_decide (challengeSucceeded (signals stamp) = Some false)
     then (([("distanceMeters", VNum (Math_round d));
             ("effectiveRadiusMeters", VNum (claim_radius claim + km * 1000));
             ("knowLocUncertaintyKm", VNum km)] ++ extra)
           ++ [("temporalOverlap", VNum t)])
          ++ [("challengeFailedPenalty", VNum (challenge_penalty stamp))]
     else ([("distanceMeters", VNum (Math_round d));
            ("effectiveRadiusMeters", VNum (claim_radius claim + km * 1000));
            ("knowLocUncertaintyKm", VNum km)] ++ extra)
          ++ [("temporalOverlap", VNum t)])
    = [("distanceMeters", VNum (Math_round d));
       ("effectiveRadiusMeters", VNum (claim_radius claim + km * 1000));
       ("knowLocUncertaintyKm", VNum km)] ++ extra
      ++ [("temporalOverlap", VNum t)] ++ pen).
  { unfold pen. destruct (bool_decide _);
      rewrite <- ?app_assoc; cbn [app]; rewrite ?app_nil_r; reflexivity. }
  rewrite Hlist. clear Hlist.
  assert (Hpen : forall k, k <> "challengeFailedPenalty" -> k ∉ keys pen).
  { intros k Hk. unfold pen. destruct (bool_decide _); cbn.
    - intros Hin. apply list_elem_of_singleton in Hin. contradiction.
    - apply not_elem_of_nil. }
  split; [| split; [| split; [| split; [| split; [| split]]]]].
  - apply (details_of_last []). cbn [app].
    change (("effectiveRadiusMeters", VNum (claim_radius claim + km * 1000))
            :: ("knowLocUncertaintyKm", VNum km)
            :: extra ++ ("temporalOverlap", VNum t) :: pen)
      with ([("effectiveRadiusMeters", VNum (claim_radius claim + km * 1000));
             ("knowLocUncertaintyKm", VNum km)]
            ++ extra ++ [("temporalOverlap", VNum t)] ++ pen).
    repeat (apply not_elem_of_app_keys);
      try absent_key; try (apply Hx; absent_key); apply Hpen; discriminate.
  - unfold Math_round. destruct (Math_floor_bounds (d + (1#2))) as [A B].
    unfold Math_floor in A, B. lra.
  - apply (details_of_last [_]). cbn [app].
    change (("knowLocUncertaintyKm", VNum km)
            :: extra ++ ("temporalOverlap", VNum t) :: pen)
      with ([("knowLocUncertaintyKm", VNum km)]
            ++ extra ++ [("temporalOverlap", VNum t)] ++ pen).
    repeat (apply not_elem_of_app_keys);
      try absent_key; try (apply Hx; absent_key); apply Hpen; discriminate.
  - apply (details_of_last [_; _]). cbn [app].
    change (extra ++ ("temporalOverlap", VNum t) :: pen)
      with (extra ++ [("temporalOverlap", VNum t)] ++ pen).
    repeat (apply not_elem_of_app_keys);
      try absent_key; try (apply Hx; absent_key); apply Hpen; discriminate.
  - intros Hnone. unfold km. rewrite Hnone. reflexivity.
  - apply (details_of_last
             ([("distanceMeters", VNum (Math_round d));
               ("effectiveRadiusMeters", VNum (claim_radius claim + km * 1000));
               ("knowLocUncertaintyKm", VNum km)] ++ extra)
             "temporalOverlap" (VNum t) pen).
    apply Hpen. discriminate.
  - unfold pen. destruct (bool_decide _) eqn:E.
    + unfold challenge_penalty. rewrite E. rewrite !app_assoc.
      apply (details_of_last _ _ _ []). apply not_elem_of_nil.
    + apply details_of_None. rewrite app_nil_r.
      change ([("distanceMeters", VNum (Math_round d));
               ("effectiveRadiusMeters", VNum (claim_radius claim + km * 1000));
               ("knowLocUncertaintyKm", VNum km)] ++ extra
              ++ [("temporalOverlap", VNum t)])
        with ([("distanceMeters", VNum (Math_round d));
               ("effectiveRadiusMeters", VNum (claim_radius claim + km * 1000));
               ("knowLocUncertaintyKm", VNum km)]
              ++ extra ++ [("temporalOverlap", VNum t)]).
      repeat (apply not_elem_of_app_keys);
        try absent_key; apply Hx; absent_key.
Qed.

End EvaluateMore.

(** *** Evaluation on the sample inputs *)



Lemma evaluate_spatial_range_witness :
  exists r,
    evaluateWitnessChainStamp (host := sample_host) fixture_stamp distantClaim = Ok r
    /\ 0 <= spatial r /\ spatial r <= 1.
Proof.
  assert (Hd : 0 <= haversineDistance (host := sample_host)
                      40.7484 (-73.9857) 51.5074 (-0.1276))
    by (vm_compute; discriminate).
  destruct (evaluate_spatial_range (host := sample_host) fixture_stamp distantClaim
              (-73.9857) 40.7484 (-0.1276) 51.5074
              {| tw_start := 1768478400; tw_end := 1768478410 |}
              eq_refl eq_refl eq_refl Hd)
    as (r & Hr & Hrange & _).
  exists r. split; [exact Hr |]. apply Hrange. vm_compute. reflexivity.
Defined.

(** New York against London, three hundred and fifty times the three
    effective radii apart: the evaluator supports the claim. *)
Lemma corroboration_alone_supports_witness :
  exists r,
    evaluateWitnessChainStamp (host := sample_host) fixture_stamp distantClaim = Ok r
    /\ supportsClaim r = true
    /\ spatial r <= 0.2.
Proof.
  assert (Hfar : (100 + 5.2 * 1000) * 3
                 <= haversineDistance (host := sample_host)
                      40.7484 (-73.9857) 51.5074 (-0.1276))
    by (vm_compute; discriminate).
  destruct (corroboration_alone_supports (host := sample_host)
              fixture_stamp distantClaim
              (-73.9857) 40.7484 (-0.1276) 51.5074
              {| tw_start := 1768478400; tw_end := 1768478410 |}
              (record_of_consolidated (consolidated_result challenge_fixture))
              eq_refl eq_refl eq_refl eq_refl eq_refl eq_refl)
    as (r & Hr & Hs & _ & Hle & _).
  - vm_compute. reflexivity.
  - discriminate.
  - vm_compute. discriminate.
  - vm_compute. discriminate.
  - vm_compute. reflexivity.
  - vm_compute. reflexivity.
  - exact Hfar.
  - exists r. split; [exact Hr |]. split; [exact Hs | exact Hle].
Defined.

Lemma evaluate_details_witness :
  exists r,
    evaluateWitnessChainStamp (host := sample_host) failed_stamp nearClaim = Ok r
    /\ cv_details r !! "distanceMeters" = Some (VNum 0)
    /\ cv_details r !! "challengeFailedPenalty" = Some (VNum 0.3).
Proof.
  destruct (evaluate_details (host := sample_host) failed_stamp nearClaim
              (-73.9857) 40.7484 (-73.9857) 40.7484
              {| tw_start := 1768478400; tw_end := 1768478410 |}
              eq_refl eq_refl eq_refl)
    as (r & Hr & Hd & _ & _ & _ & _ & _ & Hp).
  exists r. split; [exact Hr |]. split.
  - rewrite Hd. vm_compute. reflexivity.
  - rewrite Hp. reflexivity.
Defined.
